(** * drag-n-drop-ts: the project registry and its drag-and-drop listings

    A shallow embedding of [src/app.ts]: the [ProjectState] singleton
    (the registry of [Project] objects with its listener fan-out), the
    [ProjectList] listings that subscribe to it and act as drop targets, and
    the [ProjectItem] rows that act as drag sources.

    Conventions of the embedding.
    - A JavaScript array is a [list]; [push] appends at the end, an element
      is addressed by its index ([l !! i]) and updated in place with [alter].
    - A method that reads or writes object state is a computation of the
      monad [M]: it takes the machine state and returns a completion (normal
      with a value, or a thrown error) together with the state reached.  A
      throw keeps every write made before it, as in JavaScript.
    - [Project] objects are shared by reference between the registry array,
      the copies handed to listeners and the listings' [assignedProjects].
      The only write to a [Project] after its construction is
      [found.status = newStatus] in [moveProject], and it is followed at once
      by [updateListeners], which makes every listing replace its
      [assignedProjects].  Listeners are modelled as functions of their
      argument and of the state outside the registry: they do not call back
      into the registry and do not write to the objects they receive (the
      listeners of this program only read [prj.status]).  Under that reading
      a list of [Project] records stands for the array of references. *)

From stdpp Require Import base list strings pretty.
From Stdlib Require Import ZArith Lia.

Open Scope Z_scope.
Open Scope string_scope.
Open Scope list_scope.

(** ** Values and completions *)

(** The values a method of this program can return. *)
Inductive Value : Type :=
  | undefined : Value
  | str (s : string) : Value.

(** The only exception the registry can raise: a property access on
    [undefined]. *)
Inductive Error : Type :=
  | TypeError : Error.

Inductive Completion (A : Type) : Type :=
  | Normal (a : A) : Completion A
  | Throw (e : Error) : Completion A.
Arguments Normal {A} a.
Arguments Throw {A} e.

(** Truthiness of a string in a condition: the empty string is falsy. *)
Definition truthy (s : string) : bool :=
  match s with
  | EmptyString => false
  | String _ _ => true
  end.

(** ** Arrays *)

Module JSArray.

(** [arr.push(x)] *)
Definition push {A} (arr : list A) (x : A) : list A := arr ++ [x].

(** [[...arr]]: a fresh array with the same elements. *)
Definition spread {A} (arr : list A) : list A := arr.

(** [arr.find(p)]: the first element satisfying [p], with the slot that
    holds it (the reference [find] returns); [None] is [undefined]. *)
Definition find {A} (P : A → Prop) `{∀ x, Decision (P x)}
    (arr : list A) : option (nat * A) :=
  list_find P arr.

(** [arr.filter(p)]: visit the elements in index order and push those
    that satisfy [p] onto a new array. *)
Definition filter {A} (P : A → Prop) `{∀ x, Decision (P x)}
    (arr : list A) : list A :=
  foldl (λ kept x, if decide (P x) then push kept x else kept) [] arr.

End JSArray.

(** ** Projects *)

(** [enum ProjectStatus] *)
Inductive ProjectStatus : Type :=
  | Active : ProjectStatus
  | Finished : ProjectStatus.

Global Instance ProjectStatus_eq_dec : EqDecision ProjectStatus.
Proof. solve_decision. Defined.

(** The string value of an enum member. *)
Definition ProjectStatus_value (s : ProjectStatus) : string :=
  match s with
  | Active => "active"
  | Finished => "finished"
  end.

(** [class Project].  [people] is a JavaScript number; the model covers the
    integer-valued ones. *)
Record Project : Type := mkProject {
  id : string;
  title : string;
  description : string;
  people : Z;
  status : ProjectStatus
}.

Global Instance Project_eq_dec : EqDecision Project.
Proof. solve_decision. Defined.

(** [new Project(id, title, description, people)]: the constructor sets
    [status] to [ProjectStatus.Active]. *)
Definition new_Project (i t d : string) (n : Z) : Project :=
  {| id := i; title := t; description := d; people := n; status := Active |}.

(** [prj.status = s] *)
Definition set_status (s : ProjectStatus) (prj : Project) : Project :=
  {| id := id prj; title := title prj; description := description prj;
     people := people prj; status := s |}.

(** The fields of a project that no operation writes after construction. *)
Definition identity_fields (prj : Project) : string * string * string * Z :=
  (id prj, title prj, description prj, people prj).

(** ** The registry *)

Section Registry.

(** The state outside the registry that listeners act upon. *)
Variable W : Type.

(** [Math.random().toString()] at the [k]-th call of [Math.random] in the
    process.  The generator is the platform's; nothing is assumed of it. *)
Variable Math_random_toString : nat → string.

(** [type Listener<T> = (projects: T[]) => void] *)
Definition Listener : Type := list Project → W → W.

(** [class ProjectState extends State<Project>] *)
Record ProjectState : Type := mkProjectState {
  listeners : list Listener;   (* State<T>.listeners *)
  projects : list Project      (* ProjectState.projects *)
}.

(** The machine: the [projectState] singleton, the state the listeners
    act upon, the number of [Math.random] calls made so far, and the
    history of listener invocations (which listener, by registration
    index, was called with which argument).  The history is bookkeeping of
    the model: no code reads it; it is there so that "was invoked" can be
    stated. *)
Record Machine : Type := mkMachine {
  projectState : ProjectState;
  world : W;
  randoms : nat;
  calls : list (nat * list Project)
}.

Definition M (A : Type) : Type := Machine → Completion A * Machine.

Definition ret {A} (a : A) : M A := λ m, (Normal a, m).

Definition throw {A} (e : Error) : M A := λ m, (Throw e, m).

(** Sequencing: a throw skips the rest and keeps the state reached. *)
Definition bind {A B} (k : A → M B) (c : M A) : M B :=
  λ m, match c m with
       | (Normal a, m') => k a m'
       | (Throw e, m') => (Throw e, m')
       end.

Global Instance M_ret : MRet M := @ret.
Global Instance M_bind : MBind M := @bind.

Definition gets {A} (f : Machine → A) : M A := λ m, (Normal (f m), m).

Definition modify (f : Machine → Machine) : M unit := λ m, (Normal tt, f m).

Definition with_projects (f : list Project → list Project) (m : Machine) : Machine :=
  {| projectState := {| listeners := listeners (projectState m);
                        projects := f (projects (projectState m)) |};
     world := world m; randoms := randoms m; calls := calls m |}.

Definition with_listeners (f : list Listener → list Listener) (m : Machine) : Machine :=
  {| projectState := {| listeners := f (listeners (projectState m));
                        projects := projects (projectState m) |};
     world := world m; randoms := randoms m; calls := calls m |}.

(** [Math.random().toString()] *)
Definition Math_random : M string :=
  λ m, (Normal (Math_random_toString (randoms m)),
        {| projectState := projectState m; world := world m;
           randoms := S (randoms m); calls := calls m |}).

(** The call [fn(arg)] of the listener registered at index [k]. *)
Definition call (k : nat) (fn : Listener) (arg : list Project) : M Value :=
  λ m, (Normal undefined,
        {| projectState := projectState m; world := fn arg (world m);
           randoms := randoms m; calls := calls m ++ [(k, arg)] |}).

(** [fns.forEach(body)], from index [k] on. *)
Fixpoint forEach_from (k : nat) (fns : list Listener)
    (body : nat → Listener → M Value) : M Value :=
  match fns with
  | [] => ret undefined
  | fn :: rest => body k fn ;; forEach_from (S k) rest body
  end.

(** [State<T>.addListener] *)
Definition addListener (fn : Listener) : M Value :=
  modify (with_listeners (λ ls, JSArray.push ls fn)) ;;
  ret undefined.

(** [ProjectState.updateListeners] *)
Definition updateListeners : M Value :=
  fns ← gets (λ m, listeners (projectState m));
  forEach_from 0 fns (λ k fn,
    ps ← gets (λ m, projects (projectState m));
    call k fn (JSArray.spread ps)).

(** [ProjectState.addProject] *)
Definition addProject (t d : string) (n : Z) : M Value :=
  r ← Math_random;
  let project := new_Project r t d n in
  modify (with_projects (λ ps, JSArray.push ps project)) ;;
  updateListeners ;;
  ret undefined.

(** [ProjectState.moveProject].  The non-null assertion [!] is erased at
    compile time: when [find] returns [undefined] the assignment to
    [found.status] throws a [TypeError]. *)
Definition moveProject (projectId : string) (newStatus : ProjectStatus) : M Value :=
  ps ← gets (λ m, projects (projectState m));
  match JSArray.find (λ prj, id prj = projectId) ps with
  | None => throw TypeError
  | Some (slot, _) =>
      modify (with_projects (alter (set_status newStatus) slot)) ;;
      updateListeners ;;
      ret undefined
  end.

(** [ProjectState.getInstance()] at first access: [new ProjectState()],
    with both arrays empty. *)
Definition initial (w : W) : Machine :=
  {| projectState := {| listeners := []; projects := [] |};
     world := w; randoms := 0; calls := [] |}.

(** *** Sequences of calls

    The registry is driven by event handlers.  An exception that escapes
    a handler ends that handler only: the next event finds the state the
    throw left behind. *)
Inductive Call : Type :=
  | CallAdd (t d : string) (n : Z) : Call
  | CallMove (projectId : string) (newStatus : ProjectStatus) : Call
  | CallAddListener (fn : Listener) : Call.

Definition perform (c : Call) : M Value :=
  match c with
  | CallAdd t d n => addProject t d n
  | CallMove i s => moveProject i s
  | CallAddListener fn => addListener fn
  end.

Definition run (cs : list Call) (m : Machine) : Machine :=
  foldl (λ m c, (perform c m).2) m cs.

Definition is_add (c : Call) : bool :=
  match c with
  | CallAdd _ _ _ => true
  | _ => false
  end.

End Registry.

Arguments Listener W : assert.
Arguments ProjectState W : assert.
Arguments Machine W : assert.
Arguments M W A : assert.
Arguments Call W : assert.
Arguments mkProjectState {W} _ _.
Arguments mkMachine {W} _ _ _ _.
Arguments listeners {W} _.
Arguments projects {W} _.
Arguments projectState {W} _.
Arguments world {W} _.
Arguments randoms {W} _.
Arguments calls {W} _.
Arguments ret {W A} _ _.
Arguments throw {W A} _ _.
Arguments bind {W A B} _ _ _.
Arguments gets {W A} _ _.
Arguments modify {W} _ _.
Arguments with_projects {W} _ _.
Arguments with_listeners {W} _ _.
Arguments Math_random {W} _ _.
Arguments call {W} _ _ _ _.
Arguments forEach_from {W} _ _ _ _.
Arguments addListener {W} _ _.
Arguments updateListeners {W} _.
Arguments addProject {W} _ _ _ _ _.
Arguments moveProject {W} _ _ _.
Arguments initial {W} _.
Arguments CallAdd {W} _ _ _.
Arguments CallMove {W} _ _.
Arguments CallAddListener {W} _.
Arguments perform {W} _ _ _.
Arguments run {W} _ _ _.
Arguments is_add {W} _.

(** ** Rows: [class ProjectItem] *)

(** The template literal [`${n}`] of a number: its decimal digits.  This
    is what JavaScript prints for the integers it holds exactly, those of
    magnitude below 2^53.  Above, it prints the shortest digits that
    identify the double, padded with zeros, and from 10^21 on the exponent
    form (1e+21); neither is modelled.  A statement that reads the digits
    of a number carries the bound; the form lets through the numbers from
    1 to 5 only. *)
Definition Number_toString (n : Z) : string := pretty n.

Record ProjectItem : Type := mkProjectItem {
  project : Project
}.

(** [get persons()] *)
Definition persons (this : ProjectItem) : string :=
  let n := people (project this) in
  if n >? 1 then Number_toString n +:+ " persons" else "1 person".

(** The [li] element of a row once [Component]'s constructor and
    [ProjectItem.render] have run. *)
Record Li : Type := mkLi {
  li_id : string;   (* element.id = project.id *)
  li_h2 : string;
  li_h3 : string;
  li_p : string
}.

(** [new ProjectItem(hostId, project)]: the element attached to the host. *)
Definition new_ProjectItem (prj : Project) : Li :=
  let this := {| project := prj |} in
  {| li_id := id prj;
     li_h2 := title prj;
     li_h3 := persons this +:+ " assigned";
     li_p := description prj |}.

(** ** The drag session: [DragEvent] and [DataTransfer] *)

Module DataTransfer.

(** The drag data store: its items (format, data) in insertion order,
    and the allowed effect. *)
Record t : Type := mk {
  items : list (string * string);
  effectAllowed : string
}.

(** [dt.types] *)
Definition types (dt : t) : list string := (items dt).*1.

(** [dt.getData(format)]: the data of the item of that format, the empty
    string when the store has none. *)
Definition getData (format : string) (dt : t) : string :=
  match list_find (λ it, it.1 = format) (items dt) with
  | Some (_, it) => it.2
  | None => ""
  end.

(** [dt.setData(format, data)]: the item of that format, if any, is
    removed and the new one is added at the end. *)
Definition setData (format data : string) (dt : t) : t :=
  {| items := base.filter (λ it, it.1 ≠ format) (items dt) ++ [(format, data)];
     effectAllowed := effectAllowed dt |}.

Definition set_effectAllowed (e : string) (dt : t) : t :=
  {| items := items dt; effectAllowed := e |}.

End DataTransfer.

Record DragEvent : Type := mkDragEvent {
  dataTransfer : option DataTransfer.t;   (* [None] is [null] *)
  defaultPrevented : bool
}.

(** [ProjectItem.dragStartHandler]: the handler's only effect is on the
    event it receives; [event.dataTransfer!] throws on [null]. *)
Definition dragStartHandler (this : ProjectItem) (event : DragEvent)
    : Completion DragEvent :=
  match dataTransfer event with
  | None => Throw TypeError
  | Some dt =>
      let dt := DataTransfer.setData "text/plain" (id (project this)) dt in
      let dt := DataTransfer.set_effectAllowed "move" dt in
      Normal {| dataTransfer := Some dt;
                defaultPrevented := defaultPrevented event |}
  end.

(** ** Listings: [class ProjectList] *)

Record ProjectList : Type := mkProjectList {
  type : ProjectStatus;
  assignedProjects : list Project;
  droppable : bool;   (* whether the [ul]'s class list holds 'droppable' *)
  ul : list Li        (* the children of the listing's [ul] *)
}.

(** The [ProjectList] objects of the page, by order of construction. *)
Abbreviation Page := (list ProjectList).

Definition set_assignedProjects (ps : list Project) (l : ProjectList) : ProjectList :=
  {| type := type l; assignedProjects := ps;
     droppable := droppable l; ul := ul l |}.

Definition set_droppable (b : bool) (l : ProjectList) : ProjectList :=
  {| type := type l; assignedProjects := assignedProjects l;
     droppable := b; ul := ul l |}.

(** [ProjectList.renderProjects]: the [ul] is emptied and receives one row
    per assigned project, each inserted 'beforeend'.  The code finds the
    [ul] by its element id, which [render] derives from the listing's type:
    the model is that of a page with one listing per type, as the program
    builds it (on a page with two listings of one type the element found is
    the [ul] of the first of them). *)
Definition renderProjects (l : ProjectList) : ProjectList :=
  {| type := type l; assignedProjects := assignedProjects l;
     droppable := droppable l;
     ul := foldl (λ rows prj, rows ++ [new_ProjectItem prj]) [] (assignedProjects l) |}.

(** The arrow function [ProjectList.configure] hands to [addListener],
    closed over the listing [this]. *)
Definition ProjectList_listener (this : nat) : Listener Page :=
  λ projects page,
    alter (λ l,
      let filtered := JSArray.filter (λ prj, status prj = type l) projects in
      renderProjects (set_assignedProjects filtered l)) this page.

Definition with_world {W} (f : W → W) (m : Machine W) : Machine W :=
  {| projectState := projectState m; world := f (world m);
     randoms := randoms m; calls := calls m |}.

(** The object a method is invoked on.  Methods are only ever invoked on
    listings that were constructed; a slot that holds none is a call on
    [undefined]. *)
Definition this_ProjectList (this : nat) : M Page ProjectList :=
  λ m, match world m !! this with
       | Some l => (Normal l, m)
       | None => (Throw TypeError, m)
       end.

(** [new ProjectList(type)]: [assignedProjects] starts empty and
    [configure] subscribes the listing to the registry.  Returns the slot
    of the new object. *)
Definition new_ProjectList (ty : ProjectStatus) : M Page nat :=
  this ← gets (λ m, length (world m));
  modify (with_world (λ page, JSArray.push page
    {| type := ty; assignedProjects := []; droppable := false; ul := [] |})) ;;
  addListener (ProjectList_listener this) ;;
  mret this.

(** [ProjectList.dragOverHandler]; returns the event as the handler
    leaves it. *)
Definition dragOverHandler (this : nat) (event : DragEvent) : M Page DragEvent :=
  match dataTransfer event with
  | Some dt =>
      if decide (DataTransfer.types dt !! 0%nat = Some "text/plain") then
        modify (with_world (alter (set_droppable true) this)) ;;
        mret {| dataTransfer := dataTransfer event; defaultPrevented := true |}
      else mret event
  | None => mret event
  end.

(** [ProjectList.dropHandler] *)
Definition dropHandler (this : nat) (event : DragEvent) : M Page Value :=
  match dataTransfer event with
  | Some dt =>
      if truthy (DataTransfer.getData "text/plain" dt) then
        l ← this_ProjectList this;
        let id := DataTransfer.getData "text/plain" dt in
        moveProject id (if decide (type l = Active) then Active else Finished) ;;
        modify (with_world (alter (set_droppable false) this)) ;;
        mret undefined
      else mret undefined
  | None => mret undefined
  end.

(** [ProjectList.dragLeaveHandler] *)
Definition dragLeaveHandler (this : nat) (event : DragEvent) : M Page Value :=
  modify (with_world (alter (set_droppable false) this)) ;;
  mret undefined.

(** The page once the module has been evaluated: the registry singleton,
    then [activePrjList] and [finishedPrjList]. *)
Definition page_loaded : Machine Page :=
  (( new_ProjectList Active ;; new_ProjectList Finished ) (initial [])).2.

(** *** Events of the page

    What can happen once the page is loaded: a validated submission of the
    input form calls [addProject]; the platform delivers drag events to a
    listing; and [moveProject] can be called directly. *)
Inductive PageEvent : Type :=
  | AddProject (t d : string) (n : Z)
  | MoveProject (projectId : string) (newStatus : ProjectStatus)
  | DragOver (this : nat) (event : DragEvent)
  | DragLeave (this : nat) (event : DragEvent)
  | Drop (this : nat) (event : DragEvent).

Definition handle (rnd : nat → string) (e : PageEvent) (m : Machine Page)
    : Machine Page :=
  match e with
  | AddProject t d n => (addProject rnd t d n m).2
  | MoveProject i s => (moveProject i s m).2
  | DragOver this event => (dragOverHandler this event m).2
  | DragLeave this event => (dragLeaveHandler this event m).2
  | Drop this event => (dropHandler this event m).2
  end.

Definition session (rnd : nat → string) (es : list PageEvent) : Machine Page :=
  foldl (λ m e, handle rnd e m) page_loaded es.

(** ** Validation: [validate] and the input form

    A string of the model is a sequence of code units below 256, so
    [String.length] is JavaScript's [length].  A number is an integer or
    [NaN]. *)

Inductive JSNumber : Type :=
  | NaN : JSNumber
  | Int (z : Z) : JSNumber.

(** [x.toString()] of a number. *)
Definition JSNumber_toString (x : JSNumber) : string :=
  match x with
  | NaN => "NaN"
  | Int z => Number_toString z
  end.

(** [x >= lo] and [x <= hi]: every comparison with [NaN] is false. *)
Definition JSNumber_ge (x : JSNumber) (lo : Z) : bool :=
  match x with
  | NaN => false
  | Int z => (lo <=? z)%Z
  end.

Definition JSNumber_le (x : JSNumber) (hi : Z) : bool :=
  match x with
  | NaN => false
  | Int z => (z <=? hi)%Z
  end.

(** The white space and line terminator code units below 256: TAB, LF, VT,
    FF, CR, SP and NBSP. *)
Definition is_WhiteSpace (c : Stdlib.Strings.Ascii.ascii) : bool :=
  bool_decide (Stdlib.Strings.Ascii.nat_of_ascii c ∈ [9; 10; 11; 12; 13; 32; 160]%nat).

(** [s.trimStart()], [s.trimEnd()] and [s.trim()] *)
Fixpoint trimStart (s : string) : string :=
  match s with
  | EmptyString => EmptyString
  | String c rest => if is_WhiteSpace c then trimStart rest else s
  end.

Fixpoint trimEnd (s : string) : string :=
  match s with
  | EmptyString => EmptyString
  | String c rest =>
      match trimEnd rest with
      | EmptyString => if is_WhiteSpace c then EmptyString else String c EmptyString
      | kept => String c kept
      end
  end.

Definition trim (s : string) : string := trimEnd (trimStart s).

(** Whether every code unit of [s] is white space. *)
Fixpoint blank (s : string) : bool :=
  match s with
  | EmptyString => true
  | String c rest => is_WhiteSpace c && blank rest
  end.

Module Validatable.

Inductive value_t : Type :=
  | Str (s : string) : value_t
  | Num (x : JSNumber) : value_t.

(** [interface Validatable]; an optional field that is absent is [None]. *)
Record t : Type := mk {
  value : value_t;
  required : option bool;
  minLength : option Z;
  maxLength : option Z;
  min : option Z;
  max : option Z
}.

(** [value.toString()] *)
Definition toString (v : value_t) : string :=
  match v with
  | Str s => s
  | Num x => JSNumber_toString x
  end.

End Validatable.

(** [function validate(validatableInput)] *)
Definition validate (validatableInput : Validatable.t) : bool :=
  let isValid := true in
  let isValid :=
    match Validatable.required validatableInput with
    | Some true =>
        isValid && negb (Nat.eqb (String.length
          (trim (Validatable.toString (Validatable.value validatableInput)))) 0)
    | _ => isValid
    end in
  let isValid :=
    match Validatable.minLength validatableInput,
          Validatable.value validatableInput with
    | Some n, Validatable.Str s => isValid && (n <=? Z.of_nat (String.length s))%Z
    | _, _ => isValid
    end in
  let isValid :=
    match Validatable.maxLength validatableInput,
          Validatable.value validatableInput with
    | Some n, Validatable.Str s => isValid && (Z.of_nat (String.length s) <=? n)%Z
    | _, _ => isValid
    end in
  let isValid :=
    match Validatable.min validatableInput,
          Validatable.value validatableInput with
    | Some lo, Validatable.Num x => isValid && JSNumber_ge x lo
    | _, _ => isValid
    end in
  let isValid :=
    match Validatable.max validatableInput,
          Validatable.value validatableInput with
    | Some hi, Validatable.Num x => isValid && JSNumber_le x hi
    | _, _ => isValid
    end in
  isValid.

(** [class ProjectInput]: the values of its three input elements. *)
Record ProjectInput : Type := mkProjectInput {
  titleInputElement : string;
  descriptionInputElement : string;
  peopleInputElement : string
}.

(** What a submission leaves behind next to the registry: the form, the
    messages shown by [alert] (oldest first) and whether the submit event's
    default action was prevented. *)
Record Submission : Type := mkSubmission {
  form : ProjectInput;
  alerts : list string;
  submit_defaultPrevented : bool
}.

Section ProjectInputMethods.

(** The unary plus on a string, [+s].  The conversion is the platform's;
    the model covers the strings it converts to an integer or to [NaN]. *)
Variable ToNumber : string → JSNumber.

(** [ProjectInput.gatherUserInput]: the tuple, or [None] for the [void] it
    returns after the alert; with the messages it showed. *)
Definition gatherUserInput (this : ProjectInput)
    : option (string * string * JSNumber) * list string :=
  let enteredTitle := titleInputElement this in
  let enteredDescription := descriptionInputElement this in
  let enteredPeople := peopleInputElement this in
  let titleValidatable :=
    {| Validatable.value := Validatable.Str enteredTitle;
       Validatable.required := Some true;
       Validatable.minLength := None; Validatable.maxLength := None;
       Validatable.min := None; Validatable.max := None |} in
  let descriptionValidatable :=
    {| Validatable.value := Validatable.Str enteredDescription;
       Validatable.required := Some true;
       Validatable.minLength := Some 5; Validatable.maxLength := None;
       Validatable.min := None; Validatable.max := None |} in
  let peopleValidatable :=
    {| Validatable.value := Validatable.Num (ToNumber enteredPeople);
       Validatable.required := Some true;
       Validatable.minLength := None; Validatable.maxLength := None;
       Validatable.min := Some 1; Validatable.max := Some 5 |} in
  if negb (validate titleValidatable)
     || negb (validate descriptionValidatable)
     || negb (validate peopleValidatable)
  then (None, ["Invalid input, please try again!"])
  else (Some (enteredTitle, enteredDescription, ToNumber enteredPeople), []).

(** [ProjectInput.clearInputs] *)
Definition clearInputs (this : ProjectInput) : ProjectInput :=
  {| titleInputElement := ""; descriptionInputElement := "";
     peopleInputElement := "" |}.

(** [ProjectInput.submitHandler].  [addProject] takes the number of people
    as an integer of the model; [validate] has rejected [NaN] before the
    call is reached, so that branch is never taken and is given no effect. *)
Definition submitHandler {W} (rnd : nat → string) (this : ProjectInput)
    (m : Machine W) : Submission * Machine W :=
  match gatherUserInput this with
  | (Some (title, desc, Int people), shown) =>
      let m' := (addProject rnd title desc people m).2 in
      ({| form := clearInputs this; alerts := shown;
          submit_defaultPrevented := true |}, m')
  | (_, shown) =>
      ({| form := this; alerts := shown; submit_defaultPrevented := true |}, m)
  end.

End ProjectInputMethods.

(** *** What the user can do on the loaded page

    Fill the form in and submit it, and drag rows over the listings. *)
Inductive UserEvent : Type :=
  | Submit (filled : ProjectInput)
  | DragOverListing (this : nat) (event : DragEvent)
  | DragLeaveListing (this : nat) (event : DragEvent)
  | DropOnListing (this : nat) (event : DragEvent).

Definition react (ToNumber : string → JSNumber) (rnd : nat → string)
    (e : UserEvent) (m : Machine Page) : Machine Page :=
  match e with
  | Submit filled => (submitHandler ToNumber rnd filled m).2
  | DragOverListing this event => (dragOverHandler this event m).2
  | DragLeaveListing this event => (dragLeaveHandler this event m).2
  | DropOnListing this event => (dropHandler this event m).2
  end.

Definition user_session (ToNumber : string → JSNumber) (rnd : nat → string)
    (es : list UserEvent) : Machine Page :=
  foldl (λ m e, react ToNumber rnd e m) page_loaded es.

(** ** Vocabulary of the statements *)

Section Vocabulary.

Context {W : Type}.
Implicit Types (m : Machine W) (fns : list (Listener W)) (w : W).
Implicit Types (snapshot : list Project) (cs : list (Call W)).

(** The ids of the registry's items, in insertion order. *)
Definition ids m : list string := id <$> projects (projectState m).

(** The number of [addProject] calls in a sequence of calls. *)
Definition adds cs : nat := length (filter (λ c, is_add c = true) cs).

(** Each listener applied once to [snapshot], first registered first. *)
Fixpoint fan_out fns snapshot w : W :=
  match fns with
  | [] => w
  | fn :: rest => fan_out rest snapshot (fn snapshot w)
  end.

(** The invocations of one cycle over the listeners [k], ..., [k + n - 1]:
    one per listener, by registration index, all with [snapshot]. *)
Definition cycle_from (k n : nat) snapshot : list (nat * list Project) :=
  (λ j, (j, snapshot)) <$> seq k n.

Definition cycle (n : nat) snapshot : list (nat * list Project) :=
  cycle_from 0 n snapshot.

(** The machine after one notification cycle. *)
Definition notified m : Machine W :=
  {| projectState := projectState m;
     world := fan_out (listeners (projectState m))
                      (projects (projectState m)) (world m);
     randoms := randoms m;
     calls := calls m
              ++ cycle (length (listeners (projectState m)))
                       (projects (projectState m)) |}.

(** The machine once [Math.random] has been called. *)
Definition drawn m : Machine W :=
  {| projectState := projectState m; world := world m;
     randoms := S (randoms m); calls := calls m |}.

(** Between [m] and [m'] every listener subscribed in [m] was invoked
    exactly once, in registration order, with the items of [m']. *)
Definition delivered m m' : Prop :=
  listeners (projectState m') = listeners (projectState m)
  ∧ calls m' = calls m ++ cycle (length (listeners (projectState m)))
                                (projects (projectState m'))
  ∧ world m' = fan_out (listeners (projectState m))
                       (projects (projectState m')) (world m).

End Vocabulary.

(** What a listing's listener does to the listing. *)
Definition refresh (snapshot : list Project) (l : ProjectList) : ProjectList :=
  renderProjects (set_assignedProjects
    (JSArray.filter (λ prj, status prj = type l) snapshot) l).

(** The registry's listeners are those of the page's listings, in order of
    construction. *)
Definition wired (m : Machine Page) : Prop :=
  listeners (projectState m) = ProjectList_listener <$> seq 0 (length (world m)).

(** Every listing holds the registry's items of its own status. *)
Definition in_sync (m : Machine Page) : Prop :=
  ∀ this l, world m !! this = Some l →
    assignedProjects l
    = filter (λ prj, status prj = type l) (projects (projectState m)).

Definition coherent (m : Machine Page) : Prop := wired m ∧ in_sync m.

(** ** Sample data *)

(** A generator that never repeats, and one that always returns the same
    number. *)
Definition sample_random (k : nat) : string := "0." +:+ pretty k.

Definition stuck_random : nat → string := λ _, "0.5".

(** The loaded page after [addProject("Build API", "Design the REST API", 3)]. *)
Definition scenario_A : Machine Page :=
  (addProject sample_random "Build API" "Design the REST API" 3 page_loaded).2.

(** A drop event whose data store holds the one item [(format, data)]. *)
Definition drop_of (format data : string) : DragEvent :=
  {| dataTransfer := Some {| DataTransfer.items := [(format, data)];
                             DataTransfer.effectAllowed := "move" |};
     defaultPrevented := false |}.

(** A drag event as the platform creates it at drag start: an empty store. *)
Definition drag_started : DragEvent :=
  {| dataTransfer := Some {| DataTransfer.items := [];
                             DataTransfer.effectAllowed := "uninitialized" |};
     defaultPrevented := false |}.

(** ** Vocabulary of the further statements *)

(** The listeners a sequence of calls subscribes, in order. *)
Definition subscribed {W} (cs : list (Call W)) : list (Listener W) :=
  omap (λ c, match c with CallAddListener fn => Some fn | _ => None end) cs.

(** [moveProject(i, s)] as a map over the items: every item with id [i]
    gets status [s] and keeps its other fields; the others are kept. *)
Definition move_all (i : string) (s : ProjectStatus) (ps : list Project)
    : list Project :=
  (λ prj, if decide (id prj = i)
          then {| id := id prj; title := title prj;
                  description := description prj; people := people prj;
                  status := s |}
          else prj) <$> ps.

(** Every listing shows one row per assigned project, in order. *)
Definition rendered (m : Machine Page) : Prop :=
  ∀ this l, world m !! this = Some l →
    ul l = new_ProjectItem <$> assignedProjects l.

(** The page holds the active listing, then the finished listing, wired to
    the registry, in sync and rendered. *)
Definition tidy (m : Machine Page) : Prop :=
  coherent m ∧ rendered m ∧ type <$> world m = [Active; Finished].

(** The form passes validation, with [z] people. *)
Definition acceptable (ToNumber : string → JSNumber) (this : ProjectInput)
    (z : Z) : Prop :=
  blank (titleInputElement this) = false
  ∧ blank (descriptionInputElement this) = false
  ∧ (5 ≤ String.length (descriptionInputElement this))%nat
  ∧ ToNumber (peopleInputElement this) = Int z
  ∧ (1 ≤ z ≤ 5)%Z.

(** A project whose fields would pass the form's validation. *)
Definition validated (prj : Project) : Prop :=
  blank (title prj) = false
  ∧ blank (description prj) = false
  ∧ (5 ≤ String.length (description prj))%nat
  ∧ (1 ≤ people prj ≤ 5)%Z.

(** The page events a user event amounts to. *)
Definition as_page_events (ToNumber : string → JSNumber) (e : UserEvent)
    : list PageEvent :=
  match e with
  | Submit filled =>
      match gatherUserInput ToNumber filled with
      | (Some (t, d, Int n), _) => [AddProject t d n]
      | _ => []
      end
  | DragOverListing this event => [DragOver this event]
  | DragLeaveListing this event => [DragLeave this event]
  | DropOnListing this event => [Drop this event]
  end.

(** A conversion for the examples: white space around decimal digits, the
    empty string being 0; anything else is [NaN]. *)
Fixpoint digits_value (acc : Z) (s : string) : JSNumber :=
  match s with
  | EmptyString => Int acc
  | String c rest =>
      match Ascii.is_nat c with
      | Some d => digits_value (10 * acc + Z.of_nat d) rest
      | None => NaN
      end
  end.

Definition sample_ToNumber (s : string) : JSNumber := digits_value 0 (trim s).

Definition sample_form : ProjectInput :=
  {| titleInputElement := "Build API";
     descriptionInputElement := "Design the REST API";
     peopleInputElement := "3" |}.

(** The page of scenario A after a second submission. *)
Definition scenario_two : Machine Page :=
  (addProject sample_random "Write docs" "Describe the endpoints" 2
     scenario_A).2.

(** A registry in which the generator repeated itself. *)
Definition scenario_repeated_id : Machine () :=
  run stuck_random [CallAdd "a" "b" 1; CallAdd "c" "d" 2] (initial ()).

(** A drop event that carries markup first and the id of an item second. *)
Definition drop_of_markup (data : string) : DragEvent :=
  {| dataTransfer := Some {| DataTransfer.items :=
                               [("text/html", "<li></li>"); ("text/plain", data)];
                             DataTransfer.effectAllowed := "move" |};
     defaultPrevented := false |}.

(** The page of scenario A once its item has been moved to finished. *)
Definition scenario_finished : Machine Page :=
  (moveProject "0.0" Finished scenario_A).2.

(** The page of [scenario_two] once its second item has been moved to
    finished. *)
Definition scenario_two_moved : Machine Page :=
  (moveProject "0.1" Finished scenario_two).2.

(** [scenario_finished] while a drag hovers over the active listing. *)
Definition scenario_hovering : Machine Page :=
  (dragOverHandler 0 (drop_of "text/plain" "0.0") scenario_finished).2.

(** A snapshot with items of both statuses. *)
Definition sample_snapshot : list Project :=
  [ {| id := "0.0"; title := "Build API";
       description := "Design the REST API"; people := 3; status := Active |};
    {| id := "0.1"; title := "Write docs";
       description := "Describe the endpoints"; people := 2;
       status := Finished |};
    {| id := "0.2"; title := "Ship"; description := "Deploy the service";
       people := 1; status := Active |} ].

(** * Properties *)

(** ** Arrays *)

Lemma JSArray_filter_from {A} (P : A → Prop) `{∀ x, Decision (P x)}
    (kept arr : list A) :
  foldl (λ kept x, if decide (P x) then JSArray.push kept x else kept) kept arr
  = kept ++ filter P arr.
Proof.
  revert kept. induction arr as [|x arr IH]; intros kept; simpl.
  - by rewrite app_nil_r.
  - rewrite IH, filter_cons. unfold JSArray.push.
    destruct (decide (P x)); [by rewrite <- app_assoc | done].
Qed.

(** [arr.filter(p)] is the sublist of the elements that satisfy [p]. *)
Lemma JSArray_filter_spec {A} (P : A → Prop) `{∀ x, Decision (P x)}
    (arr : list A) :
  JSArray.filter P arr = filter P arr.
Proof. unfold JSArray.filter. by rewrite JSArray_filter_from. Qed.

Lemma NoDup_fmap_seq {A} (f : nat → A) (n : nat) :
  NoDup (f <$> seq 0 n)
  ↔ ∀ j k, (j < n)%nat → (k < n)%nat → f j = f k → j = k.
Proof.
  rewrite NoDup_alt. split.
  - intros Hinj j k Hj Hk Heq. apply (Hinj j k (f j)).
    + by rewrite list_lookup_fmap, lookup_seq_lt.
    + by rewrite list_lookup_fmap, lookup_seq_lt, Heq.
  - intros Hinj j k x Hj Hk.
    rewrite list_lookup_fmap in Hj, Hk.
    destruct (seq 0 n !! j) as [j'|] eqn:Ej; [| done].
    destruct (seq 0 n !! k) as [k'|] eqn:Ek; [| done].
    apply lookup_seq in Ej as [-> ?], Ek as [-> ?]. simpl in *.
    apply Hinj; [done | done | congruence].
Qed.

(** Writing [status] leaves the other fields of every item alone. *)
Lemma alter_set_status_fields s slot (ps : list Project) :
  identity_fields <$> alter (set_status s) slot ps = identity_fields <$> ps.
Proof.
  rewrite (list_fmap_alter _ _ (λ x, x)); [by apply list_alter_id |].
  by apply Forall_forall.
Qed.

Lemma alter_set_status_ids s slot (ps : list Project) :
  id <$> alter (set_status s) slot ps = id <$> ps.
Proof.
  rewrite (list_fmap_alter _ _ (λ x, x)); [by apply list_alter_id |].
  by apply Forall_forall.
Qed.

Lemma set_status_twice s (ps : list Project) slot :
  alter (set_status s) slot (alter (set_status s) slot ps)
  = alter (set_status s) slot ps.
Proof. rewrite list_alter_alter_eq. by apply list_alter_ext. Qed.

(** After [found.status = s], [find] by the same id returns the same slot. *)
Lemma find_by_id_after_move i s slot prj (ps : list Project) :
  list_find (λ prj, id prj = i) ps = Some (slot, prj) →
  list_find (λ prj, id prj = i) (alter (set_status s) slot ps)
  = Some (slot, set_status s prj).
Proof.
  rewrite !list_find_Some. intros (Hslot & Hid & Hfirst). split_and!.
  - by rewrite list_lookup_alter_eq, Hslot.
  - done.
  - intros j prj' Hj Hlt. rewrite list_lookup_alter_ne in Hj by lia. eauto.
Qed.

(** ** The registry's methods, evaluated *)

(** Expose the state passing behind the monad's notations. *)
Ltac unfold_M :=
  unfold mbind, M_bind, bind, gets, modify, ret, throw; simpl.

Section RegistryFacts.

Context {W : Type}.
Implicit Types (m : Machine W) (fns : list (Listener W)) (w : W).
Implicit Types (snapshot : list Project) (cs : list (Call W)).

Lemma cycle_lookup n snapshot k :
  (k < n)%nat → cycle n snapshot !! k = Some (k, snapshot).
Proof.
  intros Hk. unfold cycle, cycle_from.
  by rewrite list_lookup_fmap, lookup_seq_lt.
Qed.

Lemma cycle_length n snapshot : length (cycle n snapshot) = n.
Proof. unfold cycle, cycle_from. by rewrite length_fmap, length_seq. Qed.

Lemma forEach_from_listeners k fns m :
  forEach_from k fns (λ k fn,
    ps ← gets (λ m, projects (projectState m));
    call k fn (JSArray.spread ps)) m
  = (Normal undefined,
     {| projectState := projectState m;
        world := fan_out fns (projects (projectState m)) (world m);
        randoms := randoms m;
        calls := calls m
                 ++ cycle_from k (length fns) (projects (projectState m)) |}).
Proof.
  revert k m. induction fns as [|fn rest IH]; intros k m.
  - destruct m; simpl. unfold ret, cycle_from; simpl. by rewrite app_nil_r.
  - simpl. unfold mbind, M_bind, bind at 1. simpl.
    rewrite IH. simpl. unfold cycle_from. simpl.
    by rewrite <- app_assoc.
Qed.

Lemma updateListeners_eq m :
  updateListeners m = (Normal undefined, notified m).
Proof. unfold updateListeners. unfold_M. apply forEach_from_listeners. Qed.

Lemma addListener_eq fn m :
  addListener fn m
  = (Normal undefined, with_listeners (λ ls, ls ++ [fn]) m).
Proof. done. Qed.

Lemma addProject_eq rnd t d n m :
  addProject rnd t d n m
  = (Normal undefined,
     notified (with_projects
       (λ ps, ps ++ [new_Project (rnd (randoms m)) t d n]) (drawn m))).
Proof.
  unfold addProject, Math_random. unfold_M. by rewrite updateListeners_eq.
Qed.

Lemma moveProject_found i s m slot prj :
  list_find (λ prj, id prj = i) (projects (projectState m)) = Some (slot, prj) →
  moveProject i s m
  = (Normal undefined,
     notified (with_projects (alter (set_status s) slot) m)).
Proof.
  intros Hfind. unfold moveProject, JSArray.find. unfold_M.
  rewrite Hfind. by rewrite updateListeners_eq.
Qed.

Lemma moveProject_not_found i s m :
  list_find (λ prj, id prj = i) (projects (projectState m)) = None →
  moveProject i s m = (Throw TypeError, m).
Proof.
  intros Hfind. unfold moveProject, JSArray.find. unfold_M.
  by rewrite Hfind.
Qed.

Lemma find_by_id_present i m :
  i ∈ ids m →
  ∃ slot prj, list_find (λ prj, id prj = i) (projects (projectState m))
              = Some (slot, prj).
Proof.
  unfold ids. intros (prj & -> & Hin)%list_elem_of_fmap.
  destruct (list_find_elem_of (λ p, id p = id prj) _ prj Hin eq_refl)
    as [[slot prj'] Hfind].
  by exists slot, prj'.
Qed.

Lemma find_by_id_absent i m :
  i ∉ ids m →
  list_find (λ prj, id prj = i) (projects (projectState m)) = None.
Proof.
  intros Hout. apply list_find_None, Forall_forall. intros prj Hin Hid.
  apply Hout. unfold ids. apply list_elem_of_fmap. by exists prj.
Qed.

(** *** Ids along a sequence of calls *)

Lemma perform_ids rnd c m :
  ids (perform rnd c m).2
  = ids m ++ (if is_add c then [rnd (randoms m)] else [])
  ∧ randoms (perform rnd c m).2
    = (randoms m + (if is_add c then 1 else 0))%nat.
Proof.
  destruct c as [t d n|i s|fn]; simpl.
  - rewrite addProject_eq. unfold ids. simpl. rewrite fmap_app. simpl.
    split; [done | lia].
  - destruct (list_find (λ prj, id prj = i) (projects (projectState m)))
      as [[slot prj]|] eqn:Hfind.
    + rewrite (moveProject_found _ _ _ _ _ Hfind). unfold ids. simpl.
      rewrite alter_set_status_ids, app_nil_r. split; [done | lia].
    + rewrite (moveProject_not_found _ _ _ Hfind). simpl.
      rewrite app_nil_r. split; [done | lia].
  - unfold ids. simpl. rewrite app_nil_r. split; [done | lia].
Qed.

Lemma run_ids rnd cs m :
  ids (run rnd cs m) = ids m ++ (rnd <$> seq (randoms m) (adds cs))
  ∧ randoms (run rnd cs m) = (randoms m + adds cs)%nat.
Proof.
  revert m. induction cs as [|c cs IH]; intros m.
  - simpl. unfold adds. simpl. rewrite app_nil_r. split; [done | lia].
  - unfold run in *. simpl.
    destruct (IH (perform rnd c m).2) as [IHi IHr].
    destruct (perform_ids rnd c m) as [Hi Hr].
    rewrite IHi, IHr, Hi, Hr. unfold adds. rewrite filter_cons.
    destruct (is_add c); simpl.
    + rewrite <- app_assoc. simpl.
      replace (randoms m + 1)%nat with (S (randoms m)) by lia.
      split; [done | lia].
    + rewrite app_nil_r. replace (randoms m + 0)%nat with (randoms m) by lia.
      split; [done | lia].
Qed.

End RegistryFacts.

(** ** Identifiers *)

(** C1, as stated, fails: nothing in [addProject] compares the new id with
    those in use.  With a generator that returns the same number twice,
    two calls of [addProject] create two items with the same id. *)
Lemma addProject_ids_can_repeat :
  let m := run stuck_random [CallAdd "a" "b" 1; CallAdd "c" "d" 2] (initial ()) in
  ids m = ["0.5"; "0.5"] ∧ ¬ NoDup (ids m).
Proof.
  split; [reflexivity |].
  intros Hnodup. apply NoDup_cons_1_1 in Hnodup. apply Hnodup. left.
Qed.

(** C1, amended.  After any sequence of calls on a fresh registry, the ids
    of the items are, in order, the strings of the [Math.random] draws of
    the [addProject] calls; so each new id differs from all earlier ones
    exactly when the draws do not repeat. *)
Theorem addProject_ids_are_the_random_draws {W} (rnd : nat → string)
    (cs : list (Call W)) (w : W) :
  ids (run rnd cs (initial w)) = rnd <$> seq 0 (adds cs)
  ∧ (NoDup (ids (run rnd cs (initial w)))
     ↔ ∀ j k, (j < adds cs)%nat → (k < adds cs)%nat → rnd j = rnd k → j = k).
Proof.
  destruct (run_ids rnd cs (initial w)) as [Hids _]. simpl in Hids.
  split; [done |]. rewrite Hids. apply NoDup_fmap_seq.
Qed.

(** ** Notification *)

(** C2.  [addProject] always returns, and [moveProject] returns when the id
    is present; whenever either returns, every listener subscribed before
    the call has been invoked exactly once, in registration order, with
    the registry's items as they are after the mutation.  [addListener]
    registers at the end of the list and invokes nobody. *)
Theorem mutation_notifies_every_listener_in_order {W} (rnd : nat → string)
    (m : Machine W) :
  (∀ t d n, ∃ m', addProject rnd t d n m = (Normal undefined, m')
                  ∧ delivered m m')
  ∧ (∀ i s, i ∈ ids m →
       ∃ m', moveProject i s m = (Normal undefined, m') ∧ delivered m m')
  ∧ (∀ i s v m', moveProject i s m = (Normal v, m') → delivered m m')
  ∧ (∀ fn, ∃ m', addListener fn m = (Normal undefined, m')
                 ∧ listeners (projectState m')
                   = listeners (projectState m) ++ [fn]
                 ∧ calls m' = calls m).
Proof.
  split_and!.
  - intros t d n. eexists. split; [apply addProject_eq |]. by repeat split.
  - intros i s (slot & prj & Hfind)%find_by_id_present.
    eexists. split; [by apply moveProject_found with prj |]. by repeat split.
  - intros i s v m' Hmove.
    destruct (list_find (λ prj, id prj = i) (projects (projectState m)))
      as [[slot prj]|] eqn:Hfind.
    + rewrite (moveProject_found _ s _ _ _ Hfind) in Hmove.
      injection Hmove as _ <-. by repeat split.
    + by rewrite (moveProject_not_found _ s _ Hfind) in Hmove.
  - intros fn. eexists. split; [apply addListener_eq |]. done.
Qed.

Lemma mutation_notifies_every_listener_in_order_witness :
  "0.0" ∈ ids scenario_A
  ∧ (∃ m', moveProject "0.0" Finished scenario_A = (Normal undefined, m')
           ∧ delivered scenario_A m').
Proof.
  assert ("0.0" ∈ ids scenario_A) as Hin by (vm_compute; left).
  split; [exact Hin |].
  exact (proj1 (proj2
    (mutation_notifies_every_listener_in_order sample_random scenario_A))
    "0.0" Finished Hin).
Defined.

(** ** Adding *)

(** C3, as stated, fails on its last clause: [addProject] has no [return]
    statement, so the call evaluates to [undefined], never to a string. *)
Lemma addProject_returns_no_id :
  ¬ ∃ i m', addProject sample_random "Build API" "Design the REST API" 3
              (initial ()) = (Normal (str i), m').
Proof. intros (i & m' & Hadd). by rewrite addProject_eq in Hadd. Qed.

(** C3, amended.  [addProject(title, description, people)] appends one new
    item with status [Active] at the end of the registry's sequence, every
    item already there staying in its slot unchanged, and returns
    [undefined]; the new item, id included, reaches the listeners in the
    snapshot they are called with. *)
Theorem addProject_appends_active_project {W} (rnd : nat → string)
    (m : Machine W) (t d : string) (n : Z) :
  ∃ m' prj,
    addProject rnd t d n m = (Normal undefined, m')
    ∧ prj = {| id := rnd (randoms m); title := t; description := d;
               people := n; status := Active |}
    ∧ projects (projectState m') = projects (projectState m) ++ [prj]
    ∧ (∀ k old, projects (projectState m) !! k = Some old →
                projects (projectState m') !! k = Some old)
    ∧ calls m' = calls m ++ cycle (length (listeners (projectState m)))
                                  (projects (projectState m) ++ [prj]).
Proof.
  eexists _, _. split; [apply addProject_eq |]. split; [done |].
  split; [done |]. split; [| done].
  intros k old Hk. simpl. by apply lookup_app_l_Some.
Qed.

(** ** Moving *)

(** C4.  [moveProject] with an id that no item of the registry has throws
    a [TypeError] and leaves the machine as it was: no item is written and
    no listener is invoked (the history of invocations is that of [m]). *)
Theorem moveProject_unknown_id_throws {W} (m : Machine W) (i : string)
    (s : ProjectStatus) :
  i ∉ ids m →
  moveProject i s m = (Throw TypeError, m).
Proof. intros Hout. by apply moveProject_not_found, find_by_id_absent. Qed.

Lemma moveProject_unknown_id_throws_witness :
  ("unknown-id" ∉ ids scenario_A)
  ∧ moveProject "unknown-id" Finished scenario_A
    = (Throw TypeError, scenario_A).
Proof.
  assert ("unknown-id" ∉ ids scenario_A) as Hout.
  { apply (bool_decide_unpack _). vm_compute. exact I. }
  split; [exact Hout |].
  exact (moveProject_unknown_id_throws scenario_A "unknown-id" Finished Hout).
Defined.

(** C5.  [moveProject] with an id that is present returns and writes one
    slot only: the first slot whose item has the id.  The item there keeps
    its id, title, description and people and gets the status; the item in
    every other slot, one that shares the id included, is left as it was,
    and the length of the sequence is kept. *)
Theorem moveProject_changes_status_only {W} (m : Machine W) (i : string)
    (s : ProjectStatus) :
  i ∈ ids m →
  ∃ m' slot found,
    moveProject i s m = (Normal undefined, m')
    ∧ projects (projectState m) !! slot = Some found
    ∧ id found = i
    ∧ (∀ k prj, (k < slot)%nat →
         projects (projectState m) !! k = Some prj → id prj ≠ i)
    ∧ length (projects (projectState m')) = length (projects (projectState m))
    ∧ projects (projectState m') !! slot
      = Some {| id := id found; title := title found;
                description := description found; people := people found;
                status := s |}
    ∧ ∀ k prj, k ≠ slot →
        projects (projectState m) !! k = Some prj →
        projects (projectState m') !! k = Some prj.
Proof.
  intros (slot & found & Hfind)%find_by_id_present.
  exists (notified (with_projects (alter (set_status s) slot) m)), slot, found.
  split; [by apply moveProject_found with found |].
  apply list_find_Some in Hfind as (Hslot & Hid & Hfirst).
  split; [done |]. split; [done |].
  split; [intros k prj Hlt Hk; by apply (Hfirst k prj) |].
  simpl. split; [apply length_alter |].
  split; [by rewrite list_lookup_alter_eq, Hslot |].
  intros k prj Hne Hk. by rewrite list_lookup_alter_ne.
Qed.

Lemma moveProject_changes_status_only_witness :
  ∃ m', moveProject "0.5" Finished scenario_repeated_id = (Normal undefined, m')
    ∧ length (projects (projectState m')) = 2%nat
    ∧ projects (projectState m') !! 0%nat
      = Some {| id := "0.5"; title := "a"; description := "b"; people := 1;
                status := Finished |}
    ∧ projects (projectState m') !! 1%nat
      = Some {| id := "0.5"; title := "c"; description := "d"; people := 2;
                status := Active |}.
Proof.
  destruct (moveProject_changes_status_only scenario_repeated_id "0.5" Finished)
    as (m' & slot & found & Hmove & Hslot & Hid & Hfirst & Hlen & Hnew & Hframe).
  { vm_compute. left. }
  assert (slot = 0%nat) as ->.
  { destruct slot as [|slot]; [reflexivity |]. exfalso.
    apply (Hfirst 0%nat (new_Project "0.5" "a" "b" 1)); [lia | | ]; reflexivity. }
  vm_compute in Hslot. injection Hslot as <-.
  exists m'. split; [exact Hmove |]. split; [exact Hlen |].
  split; [exact Hnew |].
  apply (Hframe 1%nat); [lia | reflexivity].
Defined.

(** C8.  With an id that is present, [moveProject(id, s)] called twice
    returns both times; after the first call the item [find] selects has
    status [s], its other fields unchanged; the registry after the second
    call equals the registry after the first; and each call runs one full
    notification cycle. *)
Theorem moveProject_twice_same_registry {W} (m : Machine W) (i : string)
    (s : ProjectStatus) :
  i ∈ ids m →
  ∃ m1 m2 slot found,
    moveProject i s m = (Normal undefined, m1)
    ∧ moveProject i s m1 = (Normal undefined, m2)
    ∧ projectState m2 = projectState m1
    ∧ JSArray.find (λ prj, id prj = i) (projects (projectState m))
      = Some (slot, found)
    ∧ projects (projectState m1) !! slot
      = Some {| id := id found; title := title found;
                description := description found; people := people found;
                status := s |}
    ∧ calls m1 = calls m ++ cycle (length (listeners (projectState m)))
                                  (projects (projectState m1))
    ∧ calls m2 = calls m1 ++ cycle (length (listeners (projectState m)))
                                   (projects (projectState m1)).
Proof.
  intros (slot & found & Hfind)%find_by_id_present.
  pose proof (find_by_id_after_move i s slot found _ Hfind) as Hagain.
  eexists _, _, slot, found.
  split; [by apply moveProject_found with found |].
  split; [by apply moveProject_found with (set_status s found) |].
  simpl. rewrite set_status_twice.
  split; [done |]. split; [done |].
  split; [| done].
  apply list_find_Some in Hfind as (Hslot & _).
  by rewrite list_lookup_alter_eq, Hslot.
Qed.

Lemma moveProject_twice_same_registry_witness :
  ∃ m1 m2,
    moveProject "0.0" Active scenario_finished = (Normal undefined, m1)
    ∧ moveProject "0.0" Active m1 = (Normal undefined, m2)
    ∧ projectState m2 = projectState m1
    ∧ status <$> projects (projectState scenario_finished) = [Finished]
    ∧ projects (projectState m2) !! 0%nat
      = Some {| id := "0.0"; title := "Build API";
                description := "Design the REST API"; people := 3;
                status := Active |}
    ∧ length (calls m1) = (length (calls scenario_finished) + 2)%nat
    ∧ length (calls m2) = (length (calls scenario_finished) + 4)%nat.
Proof.
  destruct (moveProject_twice_same_registry scenario_finished "0.0" Active)
    as (m1 & m2 & slot & found & H1 & H2 & Hsame & Hfind & Hslot & Hc1 & Hc2).
  { vm_compute. left. }
  vm_compute in Hfind. injection Hfind as <- <-.
  exists m1, m2. split; [exact H1 |]. split; [exact H2 |].
  split; [exact Hsame |]. split; [reflexivity |].
  rewrite Hsame. split; [exact Hslot |].
  rewrite Hc2, Hc1, !length_app, !cycle_length.
  split; reflexivity.
Defined.

(** ** Listings *)

(** C6.  When the listener of listing [this] is called with [snapshot],
    the listing keeps its status and stores exactly the items of
    [snapshot] that have that status, in the order of [snapshot]: the
    stored list is the filtered sublist, and an item is in it if and only
    if it is in the snapshot with the listing's status. *)
Theorem listing_stores_projects_of_its_status (this : nat)
    (snapshot : list Project) (page : Page) (l : ProjectList) :
  page !! this = Some l →
  ∃ l', ProjectList_listener this snapshot page !! this = Some l'
    ∧ type l' = type l
    ∧ assignedProjects l' = filter (λ prj, status prj = type l) snapshot
    ∧ assignedProjects l' `sublist_of` snapshot
    ∧ ∀ prj, prj ∈ assignedProjects l' ↔ prj ∈ snapshot ∧ status prj = type l.
Proof.
  intros Hthis. unfold ProjectList_listener.
  rewrite list_lookup_alter_eq, Hthis. simpl. eexists. split; [done |]. simpl.
  rewrite JSArray_filter_spec. split_and!; [done | done | apply sublist_filter |].
  intros prj. rewrite list_elem_of_filter. tauto.
Qed.

Lemma listing_stores_projects_of_its_status_witness :
  (∃ l', ProjectList_listener 0 sample_snapshot (world scenario_finished)
           !! 0%nat = Some l'
     ∧ type l' = Active
     ∧ assignedProjects l'
       = [ {| id := "0.0"; title := "Build API";
              description := "Design the REST API"; people := 3;
              status := Active |};
           {| id := "0.2"; title := "Ship";
              description := "Deploy the service"; people := 1;
              status := Active |} ])
  ∧ (∃ l', ProjectList_listener 1 sample_snapshot (world scenario_finished)
             !! 1%nat = Some l'
       ∧ type l' = Finished
       ∧ assignedProjects l'
         = [ {| id := "0.1"; title := "Write docs";
                description := "Describe the endpoints"; people := 2;
                status := Finished |} ]).
Proof.
  split.
  - destruct (listing_stores_projects_of_its_status 0 sample_snapshot
                (world scenario_finished)
                {| type := Active; assignedProjects := [];
                   droppable := false; ul := [] |}
                eq_refl) as (l' & Hl' & Hty & Hassigned & _).
    exists l'. split; [exact Hl' |]. split; [exact Hty |].
    rewrite Hassigned. reflexivity.
  - destruct (listing_stores_projects_of_its_status 1 sample_snapshot
                (world scenario_finished)
                {| type := Finished;
                   assignedProjects :=
                     [ {| id := "0.0"; title := "Build API";
                          description := "Design the REST API"; people := 3;
                          status := Finished |} ];
                   droppable := false;
                   ul := [ {| li_id := "0.0"; li_h2 := "Build API";
                              li_h3 := "3 persons assigned";
                              li_p := "Design the REST API" |} ] |}
                eq_refl) as (l' & Hl' & Hty & Hassigned & _).
    exists l'. split; [exact Hl' |]. split; [exact Hty |].
    rewrite Hassigned. reflexivity.
Defined.

Lemma getData_absent format (dt : DataTransfer.t) :
  format ∉ DataTransfer.types dt → DataTransfer.getData format dt = "".
Proof.
  intros Hout. unfold DataTransfer.getData.
  destruct (list_find _ _) as [[k it]|] eqn:Hfind; [| done].
  apply list_find_Some in Hfind as (Hk & Hfmt & _).
  destruct Hout. unfold DataTransfer.types. apply list_elem_of_fmap.
  exists it. split; [done |]. by apply list_elem_of_lookup_2 with k.
Qed.

(** C7.  A drop event without a [dataTransfer], or whose data store has no
    item of format 'text/plain', makes [dropHandler] return at once: the
    machine is the one before the event, so [moveProject] was not called,
    no status changed and no listener ran. *)
Theorem dropHandler_ignores_foreign_payload (this : nat) (event : DragEvent)
    (m : Machine Page) :
  dataTransfer event = None
  ∨ (∃ dt, dataTransfer event = Some dt
           ∧ "text/plain" ∉ DataTransfer.types dt) →
  dropHandler this event m = (Normal undefined, m).
Proof.
  unfold dropHandler. intros [-> | (dt & -> & Hout)]; [done |].
  by rewrite (getData_absent _ _ Hout).
Qed.

Lemma dropHandler_ignores_foreign_payload_witness :
  dropHandler 1 (drop_of "text/html" "0.0") scenario_A
  = (Normal undefined, scenario_A).
Proof.
  apply dropHandler_ignores_foreign_payload. right.
  eexists. split; [reflexivity |].
  apply (bool_decide_unpack _). vm_compute. exact I.
Defined.

(** ** Rows *)

(** C9.  For a positive [people], [persons] is "1 person" when [people] is
    1, and the number followed by " persons" otherwise.  The number is read
    in decimal digits, which is what the template literal prints for the
    integers JavaScript holds exactly; the statement is for those, the
    positive integers below 2^53. *)
Theorem persons_singular_or_plural (this : ProjectItem) :
  (0 < people (project this) < 2 ^ 53)%Z →
  persons this
  = if decide (people (project this) = 1) then "1 person"
    else Number_toString (people (project this)) +:+ " persons".
Proof.
  intros [Hpos _]. unfold persons. simpl.
  destruct (decide (people (project this) = 1)) as [-> | Hne]; [done |].
  destruct (Z.gtb_spec (people (project this)) 1); [done | lia].
Qed.

Lemma persons_singular_or_plural_witness :
  (0 < 4 < 2 ^ 53)%Z
  ∧ persons {| project := new_Project "0.0" "Build API" "Design" 4 |}
    = "4 persons"
  ∧ persons {| project := new_Project "0.1" "Build API" "Design" 1 |}
    = "1 person"
  ∧ persons {| project := new_Project "0.2" "Build API" "Design"
                            9007199254740991 |}
    = "9007199254740991 persons".
Proof.
  split; [lia |]. split_and!.
  - apply (persons_singular_or_plural
             {| project := new_Project "0.0" "Build API" "Design" 4 |}).
    simpl. lia.
  - apply (persons_singular_or_plural
             {| project := new_Project "0.1" "Build API" "Design" 1 |}).
    simpl. lia.
  - apply (persons_singular_or_plural
             {| project := new_Project "0.2" "Build API" "Design"
                             9007199254740991 |}).
    simpl. lia.
Defined.

(** C10.  For [people] at most 1 (zero and the negative numbers included),
    [persons] is "1 person". *)
Theorem persons_at_most_one (this : ProjectItem) :
  (people (project this) ≤ 1)%Z → persons this = "1 person".
Proof.
  intros Hle. unfold persons. simpl.
  destruct (Z.gtb_spec (people (project this)) 1); [lia | done].
Qed.

Lemma persons_at_most_one_witness :
  (-3 ≤ 1)%Z
  ∧ persons {| project := new_Project "0.0" "Build API" "Design" (-3) |}
    = "1 person".
Proof.
  split; [lia |].
  apply (persons_at_most_one
           {| project := new_Project "0.0" "Build API" "Design" (-3) |}).
  simpl. lia.
Defined.

(** ** The listings of the running page *)

Create HintDb coherence.

Lemma refresh_assigned snapshot l :
  assignedProjects (refresh snapshot l)
  = filter (λ prj, status prj = type l) snapshot.
Proof. unfold refresh. simpl. apply JSArray_filter_spec. Qed.

Lemma refresh_refresh snapshot l :
  refresh snapshot (refresh snapshot l) = refresh snapshot l.
Proof. done. Qed.

(** A cycle over the listeners of the listings [js] refreshes exactly
    those listings. *)
Lemma fan_out_listings (js : list nat) snapshot (page : Page) this :
  fan_out (ProjectList_listener <$> js) snapshot page !! this
  = if decide (this ∈ js) then refresh snapshot <$> page !! this
    else page !! this.
Proof.
  revert page. induction js as [|j js IH]; intros page.
  - done.
  - rewrite fmap_cons. cbn [fan_out]. rewrite IH.
    assert (ProjectList_listener j snapshot page
            = alter (refresh snapshot) j page) as -> by done.
    rewrite list_lookup_alter.
    destruct (decide (j = this)) as [->|Hne].
    + rewrite (decide_True (P := this ∈ this :: js)) by left.
      destruct (decide (this ∈ js)); [| done].
      destruct (page !! this); simpl; [| done]. by rewrite refresh_refresh.
    + destruct (decide (this ∈ js)) as [Hin|Hout].
      * by rewrite decide_True by (by right).
      * rewrite decide_False; [done |].
        intros [?|?]%elem_of_cons; [congruence | done].
Qed.

Lemma fan_out_length (js : list nat) snapshot (page : Page) :
  length (fan_out (ProjectList_listener <$> js) snapshot page) = length page.
Proof.
  revert page. induction js as [|j js IH]; intros page; simpl; [done |].
  rewrite IH. unfold ProjectList_listener. apply length_alter.
Qed.

Lemma notified_wired m : wired m → wired (notified m).
Proof.
  unfold wired. simpl. intros Hw. rewrite Hw at 1 2.
  by rewrite fan_out_length.
Qed.

Lemma notified_in_sync m : wired m → in_sync (notified m).
Proof.
  intros Hw this l. simpl. rewrite Hw, fan_out_listings.
  intros Hl. assert (this < length (world m))%nat as Hlt.
  { destruct (decide (this ∈ seq 0 (length (world m)))).
    - destruct (world m !! this) eqn:E; [| done].
      by apply lookup_lt_Some in E.
    - by apply lookup_lt_Some in Hl. }
  rewrite decide_True in Hl by (apply elem_of_seq; lia).
  destruct (world m !! this) as [l0|]; [| done]. simpl in Hl.
  injection Hl as <-. by rewrite refresh_assigned.
Qed.

Lemma notified_coherent m : wired m → coherent (notified m).
Proof.
  intros Hw. split; [by apply notified_wired | by apply notified_in_sync].
Qed.

Lemma page_loaded_coherent : coherent page_loaded.
Proof.
  split; [done |]. intros [|[|this]] l Hl; simpl in Hl; by simplify_eq.
Qed.

Lemma set_droppable_coherent b this m :
  coherent m → coherent (with_world (alter (set_droppable b) this) m).
Proof.
  intros [Hw Hs]. split.
  - unfold wired in *. simpl. by rewrite length_alter.
  - intros k l. simpl. rewrite list_lookup_alter.
    destruct (decide (this = k)) as [->|Hne]; [| by apply Hs].
    destruct (world m !! k) as [l0|] eqn:Hk; [| done]. simpl.
    intros [= <-]. simpl. by apply (Hs k).
Qed.

Lemma addProject_coherent rnd t d n m :
  coherent m → coherent (addProject rnd t d n m).2.
Proof. intros [Hw _]. rewrite addProject_eq. by apply notified_coherent. Qed.

Lemma moveProject_coherent i s m :
  coherent m → coherent (moveProject i s m).2.
Proof.
  intros Hm.
  destruct (list_find (λ prj, id prj = i) (projects (projectState m)))
    as [[slot prj]|] eqn:Hfind.
  - rewrite (moveProject_found _ s _ _ _ Hfind).
    apply notified_coherent, Hm.
  - by rewrite (moveProject_not_found _ s _ Hfind).
Qed.

Lemma dropHandler_coherent this event m :
  coherent m → coherent (dropHandler this event m).2.
Proof.
  intros Hm. unfold dropHandler.
  destruct (dataTransfer event) as [dt|]; [| done].
  destruct (truthy _); [| done].
  unfold mbind, M_bind, bind, this_ProjectList.
  destruct (world m !! this) as [l|]; [| done].
  pose proof (moveProject_coherent (DataTransfer.getData "text/plain" dt)
    (if decide (type l = Active) then Active else Finished) m Hm) as Hmoved.
  destruct (moveProject _ _ m) as [[v|e] m']; simpl in *; [| done].
  by apply set_droppable_coherent.
Qed.

Lemma dragOverHandler_coherent this event m :
  coherent m → coherent (dragOverHandler this event m).2.
Proof.
  intros Hm. unfold dragOverHandler.
  destruct (dataTransfer event) as [dt|]; [| done].
  destruct (decide _); [| done]. by apply set_droppable_coherent.
Qed.

Lemma dragLeaveHandler_coherent this event m :
  coherent m → coherent (dragLeaveHandler this event m).2.
Proof. by apply set_droppable_coherent. Qed.

#[local] Hint Resolve addProject_coherent moveProject_coherent
  dragOverHandler_coherent dragLeaveHandler_coherent dropHandler_coherent
  : coherence.

Lemma handle_coherent rnd e m : coherent m → coherent (handle rnd e m).
Proof. intros Hm. destruct e; cbn [handle]; auto with coherence. Qed.

(** Whatever happens on the loaded page, and whether or not a handler
    throws, each listing holds the registry's items of its own status. *)
Theorem session_listings_in_sync rnd es : coherent (session rnd es).
Proof.
  unfold session. generalize page_loaded_coherent.
  generalize page_loaded. induction es as [|e es IH]; intros m Hm; simpl.
  - done.
  - by apply IH, handle_coherent.
Qed.

(** ** Scenarios *)

(** Scenario A: the added item is active and shows in the active listing
    only. *)
Example scenario_A_listings :
  status <$> projects (projectState scenario_A) = [Active]
  ∧ (fmap id ∘ assignedProjects) <$> world scenario_A = [["0.0"]; []]
  ∧ (fmap li_h3 ∘ ul) <$> world scenario_A = [["3 persons assigned"]; []].
Proof. repeat split. Qed.

(** Scenario B: dragging the row of the item onto the finished listing
    moves it there. *)
Example scenario_B_drag_and_drop :
  ∃ dragged over m,
    dragStartHandler {| project := new_Project "0.0" "Build API"
                                     "Design the REST API" 3 |} drag_started
    = Normal dragged
    ∧ dragOverHandler 1 dragged scenario_A = (Normal over, m)
    ∧ defaultPrevented over = true
    ∧ droppable <$> world m = [false; true]
    ∧ (let m' := (dropHandler 1 over m).2 in
       status <$> projects (projectState m') = [Finished]
       ∧ (fmap id ∘ assignedProjects) <$> world m' = [[]; ["0.0"]]
       ∧ droppable <$> world m' = [false; false]).
Proof. eexists _, _, _. repeat split. Qed.

(** Scenario C: a drop that carries an id the registry does not have ends
    in a [TypeError]; nothing moved, and the listing stays marked. *)
Example scenario_C_unknown_id :
  ∃ m, (dragOverHandler 1 (drop_of "text/plain" "unknown-id") scenario_A).2 = m
    ∧ (dropHandler 1 (drop_of "text/plain" "unknown-id") m).1 = Throw TypeError
    ∧ (let m' := (dropHandler 1 (drop_of "text/plain" "unknown-id") m).2 in
       status <$> projects (projectState m') = [Active]
       ∧ calls m' = calls scenario_A
       ∧ droppable <$> world m' = [false; true]).
Proof. eexists. repeat split. Qed.

(** Scenario D. *)
Example scenario_D_persons :
  persons {| project := new_Project "0.0" "t" "d" 1 |} = "1 person"
  ∧ persons {| project := new_Project "0.1" "t" "d" 4 |} = "4 persons".
Proof. split; reflexivity. Qed.

(** * Further properties *)

Section RunFacts.
Context {W : Type}.
Implicit Types (m : Machine W) (cs : list (Call W)).

Lemma perform_slots rnd c m k prj :
  projects (projectState m) !! k = Some prj →
  ∃ prj', projects (projectState (perform rnd c m).2) !! k = Some prj'
    ∧ identity_fields prj' = identity_fields prj.
Proof.
  intros Hk. destruct c as [t d n|i s|fn]; simpl.
  - rewrite addProject_eq. simpl. exists prj.
    split; [by apply lookup_app_l_Some | done].
  - destruct (list_find (λ prj, id prj = i) (projects (projectState m)))
      as [[slot found]|] eqn:Hfind.
    + rewrite (moveProject_found _ s _ _ _ Hfind). simpl.
      rewrite list_lookup_alter.
      destruct (decide (slot = k)) as [->|Hne]; [| by exists prj].
      rewrite Hk. by exists (set_status s prj).
    + rewrite (moveProject_not_found _ s _ Hfind). by exists prj.
  - by exists prj.
Qed.

(** X1.  Over any sequence of calls the registry only grows: its length
    increases by one per [addProject], [Math.random] is drawn once per
    [addProject], and every item stays in its slot with the same id, title,
    description and people. *)
Theorem run_keeps_every_item rnd cs m :
  length (projects (projectState (run rnd cs m)))
  = (length (projects (projectState m)) + adds cs)%nat
  ∧ randoms (run rnd cs m) = (randoms m + adds cs)%nat
  ∧ ∀ k prj, projects (projectState m) !! k = Some prj →
      ∃ prj', projects (projectState (run rnd cs m)) !! k = Some prj'
        ∧ identity_fields prj' = identity_fields prj.
Proof.
  split_and!.
  - destruct (run_ids rnd cs m) as [Hids _].
    apply (f_equal length) in Hids. unfold ids in Hids.
    by rewrite length_app, !length_fmap, length_seq in Hids.
  - by destruct (run_ids rnd cs m).
  - revert m. induction cs as [|c cs IH]; intros m k prj Hk.
    + by exists prj.
    + destruct (perform_slots rnd c m k prj Hk) as (prj1 & Hk1 & Hf1).
      destruct (IH _ k prj1 Hk1) as (prj' & Hk' & Hf').
      exists prj'. split; [done | congruence].
Qed.
End RunFacts.

Lemma run_keeps_every_item_witness :
  ∃ prj',
    projects (projectState
      (run sample_random [CallMove "0.0" Finished; CallAdd "t" "d" 1]
         scenario_A)) !! 0%nat = Some prj'
    ∧ identity_fields prj'
      = identity_fields (new_Project "0.0" "Build API" "Design the REST API" 3).
Proof.
  apply (proj2 (proj2 (run_keeps_every_item sample_random
           [CallMove "0.0" Finished; CallAdd "t" "d" 1] scenario_A)) 0%nat).
  reflexivity.
Defined.

Section MoveFacts.
Context {W : Type}.
Implicit Types (m : Machine W) (cs : list (Call W)).

Lemma perform_listeners rnd c m :
  listeners (projectState (perform rnd c m).2)
  = listeners (projectState m) ++ subscribed [c].
Proof.
  destruct c as [t d n|i s|fn]; simpl.
  - rewrite addProject_eq. simpl. by rewrite app_nil_r.
  - destruct (list_find (λ prj, id prj = i) (projects (projectState m)))
      as [[slot found]|] eqn:Hfind.
    + rewrite (moveProject_found _ s _ _ _ Hfind). simpl. by rewrite app_nil_r.
    + rewrite (moveProject_not_found _ s _ Hfind). by rewrite app_nil_r.
  - done.
Qed.

(** X2.  Over any sequence of calls the listeners are those that were
    there, followed by the ones subscribed since, in subscription order:
    none is removed, replaced or reordered. *)
Theorem run_listeners_append_only rnd cs m :
  listeners (projectState (run rnd cs m))
  = listeners (projectState m) ++ subscribed cs.
Proof.
  revert m. induction cs as [|c cs IH]; intros m.
  - by rewrite app_nil_r.
  - unfold run in *. simpl foldl. rewrite IH, perform_listeners.
    rewrite <- app_assoc. f_equal.
    unfold subscribed. simpl. by destruct c.
Qed.

(** X3.  An item that shares its id with an item in an earlier slot is out
    of reach: whatever id and status [moveProject] is called with, that
    item is left as it was ([find] stops at the first match). *)
Theorem moveProject_never_reaches_shadowed_item m i s j k first later :
  (j < k)%nat →
  projects (projectState m) !! j = Some first →
  projects (projectState m) !! k = Some later →
  id first = id later →
  projects (projectState (moveProject i s m).2) !! k = Some later.
Proof.
  intros Hlt Hj Hk Hid.
  destruct (list_find (λ prj, id prj = i) (projects (projectState m)))
    as [[slot found]|] eqn:Hfind.
  - rewrite (moveProject_found _ s _ _ _ Hfind). simpl.
    apply list_find_Some in Hfind as (Hslot & Hfound & Hfirst).
    rewrite list_lookup_alter_ne; [done |].
    intros ->. apply (Hfirst j first Hj Hlt). simplify_eq. congruence.
  - by rewrite (moveProject_not_found _ s _ Hfind).
Qed.

Lemma set_status_set_status s1 s2 (ps : list Project) slot :
  alter (set_status s2) slot (alter (set_status s1) slot ps)
  = alter (set_status s2) slot ps.
Proof. rewrite list_alter_alter_eq. by apply list_alter_ext. Qed.

(** X4.  Moving an item twice leaves the registry as moving it once to
    the second status does. *)
Theorem moveProject_last_write_wins m i s1 s2 :
  i ∈ ids m →
  ∃ m1 m12 m2,
    moveProject i s1 m = (Normal undefined, m1)
    ∧ moveProject i s2 m1 = (Normal undefined, m12)
    ∧ moveProject i s2 m = (Normal undefined, m2)
    ∧ projectState m12 = projectState m2.
Proof.
  intros (slot & found & Hfind)%find_by_id_present.
  pose proof (find_by_id_after_move i s1 slot found _ Hfind) as Hagain.
  eexists _, _, _.
  split; [by apply moveProject_found with found |].
  split; [by apply moveProject_found with (set_status s1 found) |].
  split; [by apply moveProject_found with found |].
  simpl. by rewrite set_status_set_status.
Qed.

Lemma find_by_id_after_other_move i j s slot_i found_i slot_j found_j
    (ps : list Project) :
  i ≠ j →
  list_find (λ prj, id prj = i) ps = Some (slot_i, found_i) →
  list_find (λ prj, id prj = j) ps = Some (slot_j, found_j) →
  list_find (λ prj, id prj = j) (alter (set_status s) slot_i ps)
  = Some (slot_j, found_j)
  ∧ slot_i ≠ slot_j.
Proof.
  rewrite !list_find_Some.
  intros Hne (Hi & Hidi & Hfi) (Hj & Hidj & Hfj).
  assert (slot_i ≠ slot_j) as Hslots by (intros ->; simplify_eq; congruence).
  split; [| done]. split_and!.
  - by rewrite list_lookup_alter_ne.
  - done.
  - intros k prj Hk Hlt. rewrite list_lookup_alter in Hk.
    destruct (decide (slot_i = k)) as [->|?]; [| by eauto].
    rewrite Hi in Hk. simpl in Hk. injection Hk as <-. simpl. congruence.
Qed.

(** X5.  Moves of items with different ids commute: both orders return
    and leave the same registry. *)
Theorem moveProject_commutes_on_distinct_ids m i j s t :
  i ≠ j → i ∈ ids m → j ∈ ids m →
  ∃ mi mij mj mji,
    moveProject i s m = (Normal undefined, mi)
    ∧ moveProject j t mi = (Normal undefined, mij)
    ∧ moveProject j t m = (Normal undefined, mj)
    ∧ moveProject i s mj = (Normal undefined, mji)
    ∧ projectState mij = projectState mji.
Proof.
  intros Hne (slot_i & found_i & Hi)%find_by_id_present
             (slot_j & found_j & Hj)%find_by_id_present.
  destruct (find_by_id_after_other_move i j s _ _ _ _ _ Hne Hi Hj)
    as [Hj' Hslots].
  destruct (find_by_id_after_other_move j i t _ _ _ _ _ (not_eq_sym Hne) Hj Hi)
    as [Hi' _].
  eexists _, _, _, _.
  split; [by apply moveProject_found with found_i |].
  split; [by apply moveProject_found with found_j |].
  split; [by apply moveProject_found with found_j |].
  split; [by apply moveProject_found with found_i |].
  simpl. f_equal. by apply list_alter_alter_ne.
Qed.

Lemma alter_first_is_move_all i s slot found (ps : list Project) :
  NoDup (id <$> ps) →
  list_find (λ prj, id prj = i) ps = Some (slot, found) →
  alter (set_status s) slot ps = move_all i s ps.
Proof.
  intros Hnodup (Hslot & Hid & _)%list_find_Some.
  apply list_eq. intros k. unfold move_all.
  rewrite list_lookup_alter, list_lookup_fmap.
  destruct (decide (slot = k)) as [->|Hne].
  - rewrite Hslot. simpl. by rewrite decide_True.
  - destruct (ps !! k) as [prj|] eqn:Hk; [| done]. simpl.
    rewrite decide_False; [done |]. intros Hsame.
    apply Hne. apply (NoDup_lookup _ _ _ i Hnodup).
    + by rewrite list_lookup_fmap, Hslot, <- Hid.
    + by rewrite list_lookup_fmap, Hk, <- Hsame.
Qed.

(** X6.  When the ids of the registry are pairwise distinct, [moveProject]
    gives status [s] to every item with the given id, leaves its other
    fields and every other item as they were, and the ids stay distinct. *)
Theorem moveProject_with_unique_ids m i s :
  NoDup (ids m) → i ∈ ids m →
  ∃ m', moveProject i s m = (Normal undefined, m')
    ∧ projects (projectState m') = move_all i s (projects (projectState m))
    ∧ (∀ prj, prj ∈ projects (projectState m') → id prj = i → status prj = s)
    ∧ (∀ prj, prj ∈ projects (projectState m) → id prj ≠ i →
              prj ∈ projects (projectState m'))
    ∧ NoDup (ids m').
Proof.
  intros Hnodup (slot & found & Hfind)%find_by_id_present.
  eexists. split; [by apply moveProject_found with found |]. simpl.
  rewrite (alter_first_is_move_all i s slot found) by done.
  split; [done |]. split_and!.
  - unfold move_all. intros prj (old & -> & Hold)%list_elem_of_fmap Hid.
    destruct (decide (id old = i)); [done | by destruct Hid].
  - unfold move_all. intros prj Hin Hid. apply list_elem_of_fmap.
    exists prj. by rewrite decide_False.
  - unfold ids. simpl. by rewrite alter_set_status_ids.
Qed.

End MoveFacts.

Lemma moveProject_never_reaches_shadowed_item_witness :
  projects (projectState (moveProject "0.5" Finished scenario_repeated_id).2)
    !! 1%nat
  = Some (new_Project "0.5" "c" "d" 2).
Proof.
  apply (moveProject_never_reaches_shadowed_item scenario_repeated_id
           "0.5" Finished 0 1 (new_Project "0.5" "a" "b" 1)).
  - lia.
  - reflexivity.
  - reflexivity.
  - reflexivity.
Defined.

Lemma moveProject_last_write_wins_witness :
  ∃ m1 m12 m2,
    moveProject "0.0" Finished scenario_A = (Normal undefined, m1)
    ∧ moveProject "0.0" Active m1 = (Normal undefined, m12)
    ∧ moveProject "0.0" Active scenario_A = (Normal undefined, m2)
    ∧ projectState m12 = projectState m2.
Proof.
  apply (moveProject_last_write_wins scenario_A "0.0" Finished Active).
  vm_compute. left.
Defined.

Lemma moveProject_commutes_on_distinct_ids_witness :
  ∃ mi mij mj mji,
    moveProject "0.0" Finished scenario_two = (Normal undefined, mi)
    ∧ moveProject "0.1" Finished mi = (Normal undefined, mij)
    ∧ moveProject "0.1" Finished scenario_two = (Normal undefined, mj)
    ∧ moveProject "0.0" Finished mj = (Normal undefined, mji)
    ∧ projectState mij = projectState mji.
Proof.
  apply (moveProject_commutes_on_distinct_ids scenario_two "0.0" "0.1"
           Finished Finished).
  - discriminate.
  - vm_compute. left.
  - vm_compute. right. left.
Defined.

Lemma moveProject_with_unique_ids_witness :
  status <$> projects (projectState scenario_two_moved) = [Active; Finished]
  ∧ ∃ m', moveProject "0.1" Active scenario_two_moved = (Normal undefined, m')
      ∧ projects (projectState m')
        = [ {| id := "0.0"; title := "Build API";
               description := "Design the REST API"; people := 3;
               status := Active |};
            {| id := "0.1"; title := "Write docs";
               description := "Describe the endpoints"; people := 2;
               status := Active |} ]
      ∧ NoDup (ids m').
Proof.
  split; [reflexivity |].
  destruct (moveProject_with_unique_ids scenario_two_moved "0.1" Active)
    as (m' & Hmove & Hps & _ & _ & Hnodup).
  - apply (bool_decide_unpack _). vm_compute. exact I.
  - vm_compute. right. left.
  - exists m'. split; [exact Hmove |]. split; [| exact Hnodup].
    rewrite Hps. reflexivity.
Defined.

Lemma renderProjects_rows (l : ProjectList) :
  ul (renderProjects l) = new_ProjectItem <$> assignedProjects l.
Proof.
  unfold renderProjects. simpl.
  assert (∀ rows ps,
    foldl (λ rows prj, rows ++ [new_ProjectItem prj]) rows ps
    = rows ++ (new_ProjectItem <$> ps)) as Hfold.
  { intros rows ps. revert rows.
    induction ps as [|prj ps IH]; intros rows; simpl.
    - by rewrite app_nil_r.
    - by rewrite IH, <- app_assoc. }
  by rewrite Hfold.
Qed.

Lemma notified_lookup m this :
  wired m →
  world (notified m) !! this
  = refresh (projects (projectState m)) <$> world m !! this.
Proof.
  intros Hw. simpl. rewrite Hw, fan_out_listings.
  destruct (decide (this ∈ seq 0 (length (world m)))) as [|Hout]; [done |].
  rewrite lookup_ge_None_2; [done |].
  destruct (decide (this < length (world m))%nat); [| lia].
  destruct Hout. apply elem_of_seq. lia.
Qed.

Lemma notified_types m :
  wired m → type <$> world (notified m) = type <$> world m.
Proof.
  intros Hw. apply list_eq. intros this.
  rewrite !list_lookup_fmap, notified_lookup by done.
  by destruct (world m !! this).
Qed.

Lemma notified_tidy m :
  wired m → type <$> world m = [Active; Finished] → tidy (notified m).
Proof.
  intros Hw Hty. split; [by apply notified_coherent |].
  split; [| by rewrite notified_types].
  intros this l. rewrite notified_lookup by done.
  destruct (world m !! this) as [l0|]; [| done]. simpl. intros [= <-].
  unfold refresh. by rewrite renderProjects_rows.
Qed.

Lemma set_droppable_tidy b this m :
  tidy m → tidy (with_world (alter (set_droppable b) this) m).
Proof.
  intros (Hc & Hr & Hty). split; [by apply set_droppable_coherent |]. split.
  - intros k l. simpl. rewrite list_lookup_alter.
    destruct (decide (this = k)) as [->|Hne]; [| by apply Hr].
    destruct (world m !! k) as [l0|] eqn:Hk; [| done]. simpl.
    intros [= <-]. simpl. by apply (Hr k).
  - simpl. rewrite (list_fmap_alter _ _ (λ x, x)); [| by apply Forall_forall].
    by rewrite list_alter_id.
Qed.

Lemma page_loaded_tidy : tidy page_loaded.
Proof.
  split; [apply page_loaded_coherent |]. split; [| done].
  intros [|[|this]] l Hl; simpl in Hl; by simplify_eq.
Qed.

Lemma addProject_tidy rnd t d n m : tidy m → tidy (addProject rnd t d n m).2.
Proof.
  intros ([Hw _] & _ & Hty). rewrite addProject_eq. by apply notified_tidy.
Qed.

Lemma moveProject_tidy i s m : tidy m → tidy (moveProject i s m).2.
Proof.
  intros Hm.
  destruct (list_find (λ prj, id prj = i) (projects (projectState m)))
    as [[slot prj]|] eqn:Hfind.
  - rewrite (moveProject_found _ s _ _ _ Hfind).
    destruct Hm as ([Hw _] & _ & Hty). by apply notified_tidy.
  - by rewrite (moveProject_not_found _ s _ Hfind).
Qed.

Lemma dragOverHandler_tidy this event m :
  tidy m → tidy (dragOverHandler this event m).2.
Proof.
  intros Hm. unfold dragOverHandler.
  destruct (dataTransfer event) as [dt|]; [| done].
  destruct (decide _); [| done]. by apply set_droppable_tidy.
Qed.

Lemma dragLeaveHandler_tidy this event m :
  tidy m → tidy (dragLeaveHandler this event m).2.
Proof. by apply set_droppable_tidy. Qed.

Lemma dropHandler_tidy this event m :
  tidy m → tidy (dropHandler this event m).2.
Proof.
  intros Hm. unfold dropHandler.
  destruct (dataTransfer event) as [dt|]; [| done].
  destruct (truthy _); [| done].
  unfold mbind, M_bind, bind, this_ProjectList.
  destruct (world m !! this) as [l|]; [| done].
  pose proof (moveProject_tidy (DataTransfer.getData "text/plain" dt)
    (if decide (type l = Active) then Active else Finished) m Hm) as Hmoved.
  destruct (moveProject _ _ m) as [[v|e] m']; simpl in *; [| done].
  by apply set_droppable_tidy.
Qed.

#[local] Hint Resolve addProject_tidy moveProject_tidy dragOverHandler_tidy
  dragLeaveHandler_tidy dropHandler_tidy : coherence.

Lemma handle_tidy rnd e m : tidy m → tidy (handle rnd e m).
Proof. intros Hm. destruct e; cbn [handle]; auto with coherence. Qed.

Lemma session_tidy rnd es : tidy (session rnd es).
Proof.
  unfold session. generalize page_loaded_tidy.
  generalize page_loaded. induction es as [|e es IH]; intros m Hm; simpl.
  - done.
  - by apply IH, handle_tidy.
Qed.


Lemma tidy_partition m :
  tidy m →
  ∃ active finished,
    world m = [active; finished]
    ∧ type active = Active ∧ type finished = Finished
    ∧ assignedProjects active ++ assignedProjects finished
      ≡ₚ projects (projectState m).
Proof.
  intros ([_ Hs] & _ & Hty).
  destruct (world m) as [|active [|finished [|]]] eqn:Hworld; try done.
  injection Hty as Ha Hf. exists active, finished.
  split; [done |]. split; [done |]. split; [done |].
  rewrite (Hs 0%nat active), (Hs 1%nat finished) by by rewrite Hworld.
  rewrite Ha, Hf.
  rewrite <- (filter_app_complement (λ prj, status prj = Active)
               (projects (projectState m))) at 3.
  f_equiv. erewrite list_filter_iff; [done |].
  intros prj. simpl. destruct (status prj); split; intros ?; congruence.
Qed.



(** X9.  In every state of a session the page holds the active and the
    finished listing, and together they hold every item of the registry
    exactly once. *)
Theorem session_listings_partition_registry rnd es :
  ∃ active finished,
    world (session rnd es) = [active; finished]
    ∧ type active = Active ∧ type finished = Finished
    ∧ assignedProjects active ++ assignedProjects finished
      ≡ₚ projects (projectState (session rnd es)).
Proof. apply tidy_partition, session_tidy. Qed.

Lemma new_ProjectList_eq ty (m : Machine Page) :
  new_ProjectList ty m
  = (Normal (length (world m)),
     with_listeners (λ ls, ls ++ [ProjectList_listener (length (world m))])
       (with_world (λ page, page ++
          [{| type := ty; assignedProjects := []; droppable := false;
              ul := [] |}]) m)).
Proof. done. Qed.

(** X10.  A listing constructed late starts empty, whatever the registry
    holds: subscribing invokes no listener and delivers no snapshot.  The
    next [addProject] brings every listing in sync. *)
Theorem new_ProjectList_starts_empty rnd ty (m : Machine Page) :
  wired m →
  ∃ this m1 l,
    new_ProjectList ty m = (Normal this, m1)
    ∧ world m1 = world m ++ [l]
    ∧ world m1 !! this = Some l
    ∧ type l = ty ∧ assignedProjects l = [] ∧ ul l = []
    ∧ projectState m1
      = {| listeners := listeners (projectState m) ++ [ProjectList_listener this];
           projects := projects (projectState m) |}
    ∧ calls m1 = calls m
    ∧ ∀ t d n, in_sync (addProject rnd t d n m1).2.
Proof.
  intros Hw. eexists _, _, _. split; [apply new_ProjectList_eq |].
  split; [done |]. simpl.
  split; [by rewrite lookup_app_r, Nat.sub_diag |].
  split; [done |]. split; [done |]. split; [done |]. split; [done |].
  split; [done |].
  intros t d n. rewrite addProject_eq. apply notified_in_sync.
  unfold wired in *. simpl. rewrite Hw, length_app. simpl.
  rewrite Nat.add_1_r, seq_S, fmap_app. done.
Qed.

Lemma new_ProjectList_starts_empty_witness :
  ∃ this m1 l,
    new_ProjectList Active scenario_A = (Normal this, m1)
    ∧ world m1 !! this = Some l
    ∧ assignedProjects l = []
    ∧ status <$> projects (projectState m1) = [Active].
Proof.
  destruct (new_ProjectList_starts_empty sample_random Active scenario_A)
    as (this & m1 & l & Hnew & Hworld & Hthis & Hty & Hassigned & Hul
        & Hstate & Hcalls & Hnext).
  { reflexivity. }
  exists this, m1, l. split; [exact Hnew |]. split; [exact Hthis |].
  split; [exact Hassigned |]. rewrite Hstate. reflexivity.
Defined.

Lemma getData_setData_eq format data (dt : DataTransfer.t) :
  DataTransfer.getData format (DataTransfer.setData format data dt) = data.
Proof.
  unfold DataTransfer.getData, DataTransfer.setData. simpl.
  rewrite list_find_app_r.
  - simpl. by rewrite decide_True.
  - apply list_find_None, Forall_forall.
    intros it Hin%list_elem_of_filter. tauto.
Qed.

Lemma getData_setData_ne format other data (dt : DataTransfer.t) :
  other ≠ format →
  DataTransfer.getData other (DataTransfer.setData format data dt)
  = DataTransfer.getData other dt.
Proof.
  intros Hne. unfold DataTransfer.getData, DataTransfer.setData. simpl.
  induction (DataTransfer.items dt) as [|it its IH]; simpl.
  - by rewrite decide_False.
  - rewrite filter_cons. destruct (decide (it.1 ≠ format)) as [Hkeep|Hdrop].
    + simpl. destruct (decide (it.1 = other)); [done |].
      destruct (list_find _ (filter _ its ++ _)) as [[k x]|],
               (list_find _ its) as [[k' x']|]; simpl in *; done.
    + apply dec_stable in Hdrop. rewrite decide_False by congruence.
      destruct (list_find _ (filter _ its ++ _)) as [[k x]|],
               (list_find _ its) as [[k' x']|]; simpl in *; done.
Qed.

(** X11.  After [dragStartHandler] the payload read back under 'text/plain'
    is the id of the row's project, whatever the store held before; the
    allowed effect is 'move' and the data of the other formats is kept. *)
Theorem dragStartHandler_payload_round_trip (this : ProjectItem)
    (event : DragEvent) (dt : DataTransfer.t) :
  dataTransfer event = Some dt →
  ∃ dt',
    dragStartHandler this event
    = Normal {| dataTransfer := Some dt';
                defaultPrevented := defaultPrevented event |}
    ∧ DataTransfer.getData "text/plain" dt' = id (project this)
    ∧ DataTransfer.effectAllowed dt' = "move"
    ∧ ∀ format, format ≠ "text/plain" →
        DataTransfer.getData format dt' = DataTransfer.getData format dt.
Proof.
  intros Hdt. unfold dragStartHandler. rewrite Hdt. eexists.
  split; [done |]. split; [apply getData_setData_eq |]. split; [done |].
  intros format Hne. by apply (getData_setData_ne "text/plain").
Qed.

Lemma dragStartHandler_payload_round_trip_witness :
  ∃ dt',
    dragStartHandler {| project := new_Project "0.0" "Build API"
                                     "Design the REST API" 3 |} drag_started
    = Normal {| dataTransfer := Some dt'; defaultPrevented := false |}
    ∧ DataTransfer.getData "text/plain" dt' = "0.0".
Proof.
  destruct (dragStartHandler_payload_round_trip
              {| project := new_Project "0.0" "Build API"
                              "Design the REST API" 3 |}
              drag_started _ eq_refl) as (dt' & Hstart & Hget & _).
  exists dt'. split; [exact Hstart | exact Hget].
Defined.



(** X13.  Hovering over a listing that is not marked and leaving it again
    restores the machine, whatever the two events carry. *)
Theorem dragOver_then_dragLeave_restores (this : nat)
    (over leave : DragEvent) (m : Machine Page) :
  (∀ l, world m !! this = Some l → droppable l = false) →
  (dragLeaveHandler this leave (dragOverHandler this over m).2).2 = m.
Proof.
  intros Hclear.
  assert (∀ b, alter (set_droppable false)
                 this (alter (set_droppable b) this (world m)) = world m)
    as Hback.
  { intros b. rewrite list_alter_alter_eq. apply list_eq. intros k.
    rewrite list_lookup_alter. destruct (decide (this = k)) as [->|]; [| done].
    destruct (world m !! k) as [l|] eqn:Hk; [| done]. simpl.
    specialize (Hclear l eq_refl). destruct l. simpl in *. by subst. }
  assert (alter (set_droppable false) this (world m) = world m) as Hstay.
  { apply list_eq. intros k.
    rewrite list_lookup_alter. destruct (decide (this = k)) as [->|]; [| done].
    destruct (world m !! k) as [l|] eqn:Hk; [| done]. simpl.
    specialize (Hclear l eq_refl). destruct l. simpl in *. by subst. }
  change (with_world (alter (set_droppable false) this)
            (dragOverHandler this over m).2 = m).
  unfold dragOverHandler.
  destruct (dataTransfer over) as [dt|];
    [destruct (decide _) |];
    destruct m as [ps w r c];
    unfold mbind, mret, M_bind, M_ret, bind, ret, modify, with_world;
    cbn [snd world projectState randoms calls] in *;
    f_equal; auto.
Qed.

Lemma dragOver_then_dragLeave_restores_witness :
  (dragLeaveHandler 1 (drop_of "text/plain" "0.0")
     (dragOverHandler 1 (drop_of "text/plain" "0.0") scenario_A).2).2
  = scenario_A.
Proof.
  apply dragOver_then_dragLeave_restores.
  intros l Hl. vm_compute in Hl. injection Hl as <-. reflexivity.
Defined.

Lemma truthy_nonempty (s : string) : truthy s = true ↔ s ≠ "".
Proof. by destruct s. Qed.

Lemma dropHandler_eq this event dt l (m : Machine Page) :
  dataTransfer event = Some dt →
  DataTransfer.getData "text/plain" dt ≠ "" →
  world m !! this = Some l →
  dropHandler this event m
  = match moveProject (DataTransfer.getData "text/plain" dt) (type l) m with
    | (Normal _, m') =>
        (Normal undefined, with_world (alter (set_droppable false) this) m')
    | (Throw e, m') => (Throw e, m')
    end.
Proof.
  intros Hdt Hdata%truthy_nonempty Hthis. unfold dropHandler.
  rewrite Hdt, Hdata. unfold mbind, M_bind, bind at 1, this_ProjectList.
  rewrite Hthis.
  replace (if decide (type l = Active) then Active else Finished)
    with (type l) by (by destruct (type l)).
  unfold bind. by destruct (moveProject _ _ m) as [[v|e] m'].
Qed.

(** What clearing the droppable mark of listing [this] does to a page. *)
Lemma clear_droppable_mark (this : nat) (page : Page) :
  length (alter (set_droppable false) this page) = length page
  ∧ (∀ l', alter (set_droppable false) this page !! this = Some l' →
           droppable l' = false)
  ∧ (∀ k l', k ≠ this → page !! k = Some l' →
             alter (set_droppable false) this page !! k = Some l')
  ∧ (∀ l', page !! this = Some l' →
       ∃ l'', alter (set_droppable false) this page !! this = Some l''
         ∧ type l'' = type l'
         ∧ assignedProjects l'' = assignedProjects l'
         ∧ ul l'' = ul l').
Proof.
  split; [apply length_alter |]. split_and!.
  - intros l'. rewrite list_lookup_alter_eq.
    destruct (page !! this) as [l0|]; [| done]. by intros [= <-].
  - intros k l' Hne Hk. by rewrite list_lookup_alter_ne.
  - intros l' Hl'. rewrite list_lookup_alter_eq, Hl'. by eexists.
Qed.

(** X14.  Dragging the row of an item of the registry and dropping it on a
    listing returns normally: the item [find] selects gets the listing's
    type as its status and keeps its other fields, every other slot is left
    as it was, one notification cycle runs, and after it the listing's
    droppable mark is cleared. *)
Theorem drag_and_drop_moves_item (row : ProjectItem) (event : DragEvent)
    (dt : DataTransfer.t) (this : nat) (l : ProjectList) (m : Machine Page) :
  dataTransfer event = Some dt →
  id (project row) ≠ "" →
  id (project row) ∈ ids m →
  world m !! this = Some l →
  ∃ dragged m' slot found,
    dragStartHandler row event = Normal dragged
    ∧ dropHandler this dragged m = (Normal undefined, m')
    ∧ JSArray.find (λ prj, id prj = id (project row))
        (projects (projectState m)) = Some (slot, found)
    ∧ projects (projectState m') !! slot
      = Some {| id := id found; title := title found;
                description := description found; people := people found;
                status := type l |}
    ∧ (∀ k prj, k ≠ slot →
         projects (projectState m) !! k = Some prj →
         projects (projectState m') !! k = Some prj)
    ∧ length (projects (projectState m')) = length (projects (projectState m))
    ∧ (∃ page, page = fan_out (listeners (projectState m))
                              (projects (projectState m')) (world m)
         ∧ length (world m') = length page
         ∧ (∀ l', world m' !! this = Some l' → droppable l' = false)
         ∧ (∀ k l', k ≠ this → page !! k = Some l' → world m' !! k = Some l')
         ∧ (∀ l', page !! this = Some l' →
              ∃ l'', world m' !! this = Some l''
                ∧ type l'' = type l'
                ∧ assignedProjects l'' = assignedProjects l'
                ∧ ul l'' = ul l'))
    ∧ calls m' = calls m ++ cycle (length (listeners (projectState m)))
                                  (projects (projectState m')).
Proof.
  intros Hdt Hid (slot & found & Hfind)%find_by_id_present Hthis.
  unfold dragStartHandler. rewrite Hdt.
  set (dt' := DataTransfer.set_effectAllowed "move"
                (DataTransfer.setData "text/plain" (id (project row)) dt)).
  assert (DataTransfer.getData "text/plain" dt' = id (project row)) as Hget
    by apply getData_setData_eq.
  eexists _, _, slot, found. split; [done |].
  split.
  { rewrite (dropHandler_eq this _ dt' l); [| done | by rewrite Hget | done].
    rewrite Hget, (moveProject_found _ _ _ _ _ Hfind). done. }
  split; [done |]. cbn [projects projectState with_world with_projects
                        notified world calls].
  apply list_find_Some in Hfind as (Hslot & _).
  split; [by rewrite list_lookup_alter_eq, Hslot |].
  split; [intros k prj Hne Hk; by rewrite list_lookup_alter_ne |].
  split; [apply length_alter |].
  split; [| done].
  eexists. split; [reflexivity |]. apply clear_droppable_mark.
Qed.

Lemma drag_and_drop_moves_item_witness :
  status <$> projects (projectState scenario_hovering) = [Finished]
  ∧ droppable <$> world scenario_hovering = [true; false]
  ∧ ∃ dragged m',
      dragStartHandler
        {| project := {| id := "0.0"; title := "Build API";
                         description := "Design the REST API"; people := 3;
                         status := Finished |} |} drag_started
      = Normal dragged
      ∧ dropHandler 0 dragged scenario_hovering = (Normal undefined, m')
      ∧ projects (projectState m') !! 0%nat
        = Some {| id := "0.0"; title := "Build API";
                  description := "Design the REST API"; people := 3;
                  status := Active |}
      ∧ (∀ l', world m' !! 0%nat = Some l' → droppable l' = false)
      ∧ droppable <$> world m' = [false; false].
Proof.
  split; [reflexivity |]. split; [reflexivity |].
  destruct (drag_and_drop_moves_item
              {| project := {| id := "0.0"; title := "Build API";
                               description := "Design the REST API";
                               people := 3; status := Finished |} |}
              drag_started
              {| DataTransfer.items := [];
                 DataTransfer.effectAllowed := "uninitialized" |}
              0
              {| type := Active; assignedProjects := [];
                 droppable := true; ul := [] |}
              scenario_hovering)
    as (dragged & m' & slot & found & Hstart & Hdrop & Hfind & Hnew & _ & _
        & (page & _ & _ & Hmark & _) & _).
  - reflexivity.
  - discriminate.
  - vm_compute. left.
  - reflexivity.
  - vm_compute in Hfind. injection Hfind as <- <-.
    exists dragged, m'. split; [exact Hstart |]. split; [exact Hdrop |].
    split; [exact Hnew |]. split; [exact Hmark |].
    assert (m' = (dropHandler 0 dragged scenario_hovering).2) as ->
      by (by rewrite Hdrop).
    injection Hstart as <-. reflexivity.
Defined.

(** X15.  A drop whose 'text/plain' payload is an id the registry does not
    have ends in a [TypeError] with the machine untouched: in particular
    the droppable mark of the listing is not cleared. *)
Theorem dropHandler_unknown_id_changes_nothing (this : nat)
    (event : DragEvent) (dt : DataTransfer.t) (m : Machine Page) :
  dataTransfer event = Some dt →
  DataTransfer.getData "text/plain" dt ≠ "" →
  DataTransfer.getData "text/plain" dt ∉ ids m →
  dropHandler this event m = (Throw TypeError, m).
Proof.
  intros Hdt Hdata Hout.
  destruct (world m !! this) as [l|] eqn:Hthis.
  - rewrite (dropHandler_eq this _ dt l) by done.
    by rewrite moveProject_not_found by by apply find_by_id_absent.
  - apply truthy_nonempty in Hdata. unfold dropHandler.
    rewrite Hdt, Hdata. unfold mbind, M_bind, bind, this_ProjectList.
    by rewrite Hthis.
Qed.

Lemma dropHandler_unknown_id_changes_nothing_witness :
  dropHandler 1 (drop_of "text/plain" "unknown-id") scenario_A
  = (Throw TypeError, scenario_A).
Proof.
  apply (dropHandler_unknown_id_changes_nothing 1
           (drop_of "text/plain" "unknown-id")
           {| DataTransfer.items := [("text/plain", "unknown-id")];
              DataTransfer.effectAllowed := "move" |}).
  - reflexivity.
  - discriminate.
  - apply (bool_decide_unpack _). vm_compute. exact I.
Defined.

(** X16.  [dropHandler] does not look at what [dragOverHandler] decided: a
    payload whose first type is not 'text/plain' is not accepted on drag
    over, yet on drop the item named by its 'text/plain' data gets the
    listing's type as its status, its other fields and the other slots
    being kept. *)
Theorem dropHandler_acts_without_dragOver_acceptance (this : nat)
    (event : DragEvent) (dt : DataTransfer.t) (l : ProjectList)
    (m : Machine Page) :
  dataTransfer event = Some dt →
  DataTransfer.types dt !! 0%nat ≠ Some "text/plain" →
  DataTransfer.getData "text/plain" dt ≠ "" →
  DataTransfer.getData "text/plain" dt ∈ ids m →
  world m !! this = Some l →
  dragOverHandler this event m = (Normal event, m)
  ∧ ∃ m' slot found,
      dropHandler this event m = (Normal undefined, m')
      ∧ JSArray.find (λ prj, id prj = DataTransfer.getData "text/plain" dt)
          (projects (projectState m)) = Some (slot, found)
      ∧ projects (projectState m') !! slot
        = Some {| id := id found; title := title found;
                  description := description found; people := people found;
                  status := type l |}
      ∧ (∀ k prj, k ≠ slot →
           projects (projectState m) !! k = Some prj →
           projects (projectState m') !! k = Some prj)
      ∧ calls m' = calls m ++ cycle (length (listeners (projectState m)))
                                    (projects (projectState m')).
Proof.
  intros Hdt Hfirst Hdata (slot & found & Hfind)%find_by_id_present Hthis.
  split.
  - unfold dragOverHandler. rewrite Hdt. by rewrite decide_False.
  - eexists _, slot, found. split.
    { rewrite (dropHandler_eq this _ dt l) by done.
      by rewrite (moveProject_found _ _ _ _ _ Hfind). }
    split; [done |]. simpl.
    apply list_find_Some in Hfind as (Hslot & _).
    split; [by rewrite list_lookup_alter_eq, Hslot |].
    split; [| done].
    intros k prj Hne Hk. by rewrite list_lookup_alter_ne.
Qed.

Lemma dropHandler_acts_without_dragOver_acceptance_witness :
  status <$> projects (projectState scenario_finished) = [Finished]
  ∧ dragOverHandler 0 (drop_of_markup "0.0") scenario_finished
    = (Normal (drop_of_markup "0.0"), scenario_finished)
  ∧ ∃ m', dropHandler 0 (drop_of_markup "0.0") scenario_finished
          = (Normal undefined, m')
      ∧ projects (projectState m') !! 0%nat
        = Some {| id := "0.0"; title := "Build API";
                  description := "Design the REST API"; people := 3;
                  status := Active |}
      ∧ length (calls m') = (length (calls scenario_finished) + 2)%nat.
Proof.
  split; [reflexivity |].
  destruct (dropHandler_acts_without_dragOver_acceptance 0
              (drop_of_markup "0.0")
              {| DataTransfer.items :=
                   [("text/html", "<li></li>"); ("text/plain", "0.0")];
                 DataTransfer.effectAllowed := "move" |}
              {| type := Active; assignedProjects := [];
                 droppable := false; ul := [] |}
              scenario_finished)
    as (Hover & m' & slot & found & Hdrop & Hfind & Hnew & _ & Hcalls).
  - reflexivity.
  - discriminate.
  - discriminate.
  - vm_compute. left.
  - reflexivity.
  - vm_compute in Hfind. injection Hfind as <- <-.
    split; [exact Hover |]. exists m'. split; [exact Hdrop |].
    split; [exact Hnew |].
    rewrite Hcalls, length_app, cycle_length. reflexivity.
Defined.



Lemma trimStart_blank (s : string) : blank (trimStart s) = blank s.
Proof.
  induction s as [|c s IH]; simpl; [done |].
  destruct (is_WhiteSpace c) eqn:Hc; simpl; [done | by rewrite Hc].
Qed.

Lemma trimEnd_empty (s : string) : trimEnd s = "" ↔ blank s = true.
Proof.
  induction s as [|c s IH]; simpl; [done |].
  destruct (trimEnd s) as [|c' kept] eqn:Hend.
  - destruct (is_WhiteSpace c); simpl; [tauto |].
    split; [done | intros [=]].
  - split; [done |]. intros [_ Hblank]%andb_true_iff.
    apply IH in Hblank. done.
Qed.

(** [s.trim()] is empty exactly when [s] holds white space only. *)
Lemma trim_empty (s : string) : trim s = "" ↔ blank s = true.
Proof. unfold trim. by rewrite trimEnd_empty, trimStart_blank. Qed.

Lemma trim_length_zero (s : string) :
  Nat.eqb (String.length (trim s)) 0 = blank s.
Proof.
  destruct (blank s) eqn:Hblank.
  - apply trim_empty in Hblank. by rewrite Hblank.
  - destruct (trim s) eqn:Htrim; [| done].
    apply trim_empty in Htrim. congruence.
Qed.

Lemma pretty_N_char_not_WhiteSpace (d : N) :
  is_WhiteSpace (pretty_N_char d) = false.
Proof. unfold pretty_N_char. by repeat case_match. Qed.

Lemma pretty_N_go_not_blank (x : N) (s : string) :
  ((0 < x)%N ∨ blank s = false) → blank (pretty_N_go x s) = false.
Proof.
  revert s. induction (N.lt_wf_0 x) as [x _ IH]. intros s Hcase.
  destruct (decide (0 < x)%N) as [Hpos|Hzero].
  - rewrite pretty_N_go_step by done. apply IH.
    + by apply N.div_lt.
    + right. simpl. apply andb_false_iff. left.
      apply pretty_N_char_not_WhiteSpace.
  - assert (x = 0%N) as -> by lia. rewrite pretty_N_go_0.
    destruct Hcase; [lia | done].
Qed.

(** The string of a number is never blank. *)
Lemma JSNumber_toString_not_blank (x : JSNumber) :
  blank (JSNumber_toString x) = false.
Proof.
  destruct x as [|[|p|p]]; try reflexivity.
  unfold JSNumber_toString, Number_toString, pretty, pretty_Z, pretty, pretty_N.
  simpl. apply pretty_N_go_not_blank. left. lia.
Qed.

Lemma option_bound_iff {A} (o : option A) (b : A → bool) (P : A → Prop) :
  (∀ a, b a = true ↔ P a) →
  match o with Some a => b a | None => true end = true
  ↔ ∀ a, o = Some a → P a.
Proof.
  intros Hb. destruct o as [a|].
  - rewrite Hb. split; [by intros ? ? [= <-] | auto].
  - split; [done | auto].
Qed.

Lemma validate_string_checks (v : Validatable.t) (s : string) :
  Validatable.value v = Validatable.Str s →
  validate v
  = (if decide (Validatable.required v = Some true) then negb (blank s)
     else true)
    && match Validatable.minLength v with
       | Some n => (n <=? Z.of_nat (String.length s))%Z
       | None => true
       end
    && match Validatable.maxLength v with
       | Some n => (Z.of_nat (String.length s) <=? n)%Z
       | None => true
       end.
Proof.
  intros Hvalue. unfold validate. rewrite Hvalue. cbn [Validatable.toString].
  rewrite trim_length_zero.
  destruct (Validatable.required v) as [[|]|],
           (Validatable.minLength v), (Validatable.maxLength v),
           (Validatable.min v), (Validatable.max v);
    cbn; repeat case_decide; simplify_eq; by rewrite ?andb_true_r.
Qed.

Lemma validate_number_checks (v : Validatable.t) (x : JSNumber) :
  Validatable.value v = Validatable.Num x →
  validate v
  = match Validatable.min v with
    | Some lo => JSNumber_ge x lo
    | None => true
    end
    && match Validatable.max v with
       | Some hi => JSNumber_le x hi
       | None => true
       end.
Proof.
  intros Hvalue. unfold validate. rewrite Hvalue. cbn [Validatable.toString].
  rewrite trim_length_zero, JSNumber_toString_not_blank.
  destruct (Validatable.required v) as [[|]|],
           (Validatable.minLength v), (Validatable.maxLength v),
           (Validatable.min v), (Validatable.max v);
    cbn; repeat case_decide; simplify_eq; by rewrite ?andb_true_r.
Qed.

(** X18.  For a string, [validate] holds exactly when the string is not
    blank if required, and its length (of the untrimmed string) is within
    [minLength] and [maxLength] where given; [min] and [max] play no part. *)
Theorem validate_string (v : Validatable.t) (s : string) :
  Validatable.value v = Validatable.Str s →
  validate v = true
  ↔ (Validatable.required v = Some true → blank s = false)
    ∧ (∀ n, Validatable.minLength v = Some n
            → (n ≤ Z.of_nat (String.length s))%Z)
    ∧ (∀ n, Validatable.maxLength v = Some n
            → (Z.of_nat (String.length s) ≤ n)%Z).
Proof.
  intros Hvalue. rewrite (validate_string_checks v s Hvalue).
  rewrite !andb_true_iff.
  rewrite (option_bound_iff _ _ (λ n, (n ≤ Z.of_nat (String.length s))%Z))
    by (intros; apply Z.leb_le).
  rewrite (option_bound_iff _ _ (λ n, (Z.of_nat (String.length s) ≤ n)%Z))
    by (intros; apply Z.leb_le).
  destruct (decide (Validatable.required v = Some true)) as [Hreq|Hreq].
  - rewrite negb_true_iff. tauto.
  - tauto.
Qed.

Lemma validate_string_witness :
  validate {| Validatable.value := Validatable.Str "    a";
              Validatable.required := Some true;
              Validatable.minLength := Some 5;
              Validatable.maxLength := None;
              Validatable.min := Some 100; Validatable.max := None |} = true.
Proof.
  apply (validate_string _ "    a"); [reflexivity |].
  split_and!.
  - intros _. reflexivity.
  - intros n [= <-]. vm_compute. discriminate.
  - intros n [=].
Defined.

(** X19.  For a number, [validate] holds exactly when the number is within
    [min] and [max] where given, which [NaN] never is; [required],
    [minLength] and [maxLength] play no part. *)
Theorem validate_number (v : Validatable.t) (x : JSNumber) :
  Validatable.value v = Validatable.Num x →
  validate v = true
  ↔ (∀ lo, Validatable.min v = Some lo → ∃ z, x = Int z ∧ (lo ≤ z)%Z)
    ∧ (∀ hi, Validatable.max v = Some hi → ∃ z, x = Int z ∧ (z ≤ hi)%Z).
Proof.
  intros Hvalue. rewrite (validate_number_checks v x Hvalue).
  rewrite andb_true_iff.
  rewrite (option_bound_iff _ _ (λ lo, ∃ z, x = Int z ∧ (lo ≤ z)%Z)).
  2:{ intros lo. destruct x as [|z]; simpl.
      - split; [done | by intros (z & ? & _)].
      - rewrite Z.leb_le. split; [by exists z | by intros (z' & [= <-] & ?)]. }
  rewrite (option_bound_iff _ _ (λ hi, ∃ z, x = Int z ∧ (z ≤ hi)%Z)).
  2:{ intros hi. destruct x as [|z]; simpl.
      - split; [done | by intros (z & ? & _)].
      - rewrite Z.leb_le. split; [by exists z | by intros (z' & [= <-] & ?)]. }
  done.
Qed.

Lemma validate_number_witness :
  validate {| Validatable.value := Validatable.Num NaN;
              Validatable.required := Some true;
              Validatable.minLength := Some 5;
              Validatable.maxLength := None;
              Validatable.min := None; Validatable.max := None |} = true.
Proof.
  apply (validate_number _ NaN); [reflexivity |].
  split; intros n [=].
Defined.

Section FormFacts.

Variable ToNumber : string → JSNumber.

Lemma gatherUserInput_checks (this : ProjectInput) :
  gatherUserInput ToNumber this
  = if negb (blank (titleInputElement this))
       && (negb (blank (descriptionInputElement this))
           && (5 <=? Z.of_nat (String.length (descriptionInputElement this)))%Z)
       && (JSNumber_ge (ToNumber (peopleInputElement this)) 1
           && JSNumber_le (ToNumber (peopleInputElement this)) 5)
    then (Some (titleInputElement this, descriptionInputElement this,
                ToNumber (peopleInputElement this)), [])
    else (None, ["Invalid input, please try again!"]).
Proof.
  unfold gatherUserInput.
  rewrite (validate_string_checks _ (titleInputElement this)) by done.
  rewrite (validate_string_checks _ (descriptionInputElement this)) by done.
  rewrite (validate_number_checks _ (ToNumber (peopleInputElement this)))
    by done.
  cbn. rewrite !andb_true_r.
  by destruct (blank (titleInputElement this)),
              (blank (descriptionInputElement this)),
              (5 <=? _)%Z, (JSNumber_ge _ 1), (JSNumber_le _ 5).
Qed.

Lemma acceptable_checks (this : ProjectInput) :
  negb (blank (titleInputElement this))
  && (negb (blank (descriptionInputElement this))
      && (5 <=? Z.of_nat (String.length (descriptionInputElement this)))%Z)
  && (JSNumber_ge (ToNumber (peopleInputElement this)) 1
      && JSNumber_le (ToNumber (peopleInputElement this)) 5) = true
  ↔ ∃ z, acceptable ToNumber this z.
Proof.
  unfold acceptable. rewrite !andb_true_iff, !negb_true_iff, Z.leb_le.
  destruct (ToNumber (peopleInputElement this)) as [|z]; simpl.
  - split; [by intros (_ & [=] & _) | by intros (z & _ & _ & _ & [=] & _)].
  - rewrite !Z.leb_le. split.
    + intros ([? [? ?]] & ? & ?). exists z. split_and!; try done; lia.
    + intros (z' & ? & ? & ? & [= <-] & ? & ?). split_and!; try done; lia.
Qed.

Lemma acceptable_or_not (this : ProjectInput) :
  (∃ z, acceptable ToNumber this z) ∨ ¬ (∃ z, acceptable ToNumber this z).
Proof.
  rewrite <- acceptable_checks. destruct (_ && _ && _); [by left | by right].
Qed.

(** X20.  [gatherUserInput] returns the three entered values, untrimmed,
    when the title is not blank, the description is not blank and at least
    5 long, and the people field converts to a number from 1 to 5; in every
    other case it shows one alert and returns nothing. *)
Theorem gatherUserInput_accepts_iff (this : ProjectInput) :
  (∀ z, acceptable ToNumber this z →
        gatherUserInput ToNumber this
        = (Some (titleInputElement this, descriptionInputElement this, Int z),
           []))
  ∧ ((¬ ∃ z, acceptable ToNumber this z) →
        gatherUserInput ToNumber this
        = (None, ["Invalid input, please try again!"])).
Proof.
  rewrite gatherUserInput_checks. split.
  - intros z Hz. rewrite (proj2 (acceptable_checks this)) by by exists z.
    by destruct Hz as (_ & _ & _ & -> & _).
  - intros Hno. destruct (_ && _ && _) eqn:Hchecks; [| done].
    destruct Hno. by apply acceptable_checks.
Qed.

Context {W : Type}.
Implicit Types (m : Machine W).

Lemma submitHandler_accepted rnd this m z :
  acceptable ToNumber this z →
  submitHandler ToNumber rnd this m
  = ({| form := clearInputs this; alerts := [];
        submit_defaultPrevented := true |},
     (addProject rnd (titleInputElement this) (descriptionInputElement this)
        z m).2).
Proof.
  intros Hz. unfold submitHandler. rewrite gatherUserInput_checks.
  rewrite (proj2 (acceptable_checks this)) by by exists z.
  by destruct Hz as (_ & _ & _ & -> & _).
Qed.

Lemma submitHandler_refused rnd this m :
  (¬ ∃ z, acceptable ToNumber this z) →
  submitHandler ToNumber rnd this m
  = ({| form := this; alerts := ["Invalid input, please try again!"];
        submit_defaultPrevented := true |}, m).
Proof.
  intros Hno. unfold submitHandler. rewrite gatherUserInput_checks.
  destruct (_ && _ && _) eqn:Hchecks; [| done].
  destruct Hno. by apply acceptable_checks.
Qed.

(** X21.  A submission that passes validation appends one active item
    with the entered values to the registry, notifies every listener,
    clears the three inputs and shows no alert. *)
Theorem submitHandler_adds_the_validated_project rnd this m z :
  acceptable ToNumber this z →
  ∃ m',
    submitHandler ToNumber rnd this m
    = ({| form := {| titleInputElement := ""; descriptionInputElement := "";
                     peopleInputElement := "" |};
          alerts := []; submit_defaultPrevented := true |}, m')
    ∧ projects (projectState m')
      = projects (projectState m)
        ++ [{| id := rnd (randoms m); title := titleInputElement this;
               description := descriptionInputElement this;
               people := z; status := Active |}]
    ∧ delivered m m'.
Proof.
  intros Hz. eexists. split; [by apply submitHandler_accepted |].
  rewrite addProject_eq. by repeat split.
Qed.

(** X22.  A submission that fails validation shows one alert and changes
    nothing else: the machine is untouched and the inputs keep what was
    entered. *)
Theorem submitHandler_rejects_invalid_input rnd this m :
  (¬ ∃ z, acceptable ToNumber this z) →
  submitHandler ToNumber rnd this m
  = ({| form := this; alerts := ["Invalid input, please try again!"];
        submit_defaultPrevented := true |}, m).
Proof. apply submitHandler_refused. Qed.

End FormFacts.

Lemma gatherUserInput_accepts_iff_witness :
  gatherUserInput sample_ToNumber sample_form
  = (Some ("Build API", "Design the REST API", Int 3), []).
Proof.
  apply (proj1 (gatherUserInput_accepts_iff sample_ToNumber sample_form) 3).
  unfold acceptable. split_and!; try reflexivity; simpl; lia.
Defined.

Lemma submitHandler_adds_the_validated_project_witness :
  ∃ m',
    submitHandler sample_ToNumber sample_random sample_form page_loaded
    = ({| form := {| titleInputElement := ""; descriptionInputElement := "";
                     peopleInputElement := "" |};
          alerts := []; submit_defaultPrevented := true |}, m')
    ∧ projects (projectState m')
      = [new_Project "0.0" "Build API" "Design the REST API" 3].
Proof.
  destruct (submitHandler_adds_the_validated_project sample_ToNumber
              sample_random sample_form page_loaded 3)
    as (m' & Hsubmit & Hps & _).
  - unfold acceptable. split_and!; try reflexivity; simpl; lia.
  - exists m'. split; [exact Hsubmit | exact Hps].
Defined.

Lemma submitHandler_rejects_invalid_input_witness :
  submitHandler sample_ToNumber sample_random
    {| titleInputElement := "Build API";
       descriptionInputElement := "Design the REST API";
       peopleInputElement := "" |} scenario_A
  = ({| form := {| titleInputElement := "Build API";
                   descriptionInputElement := "Design the REST API";
                   peopleInputElement := "" |};
        alerts := ["Invalid input, please try again!"];
        submit_defaultPrevented := true |}, scenario_A).
Proof.
  apply submitHandler_rejects_invalid_input.
  intros (z & _ & _ & _ & Hnum & Hlo & _).
  vm_compute in Hnum. injection Hnum as <-. lia.
Defined.

Lemma react_as_page_events ToNumber rnd e (m : Machine Page) :
  react ToNumber rnd e m
  = foldl (λ m e, handle rnd e m) m (as_page_events ToNumber e).
Proof.
  destruct e as [filled| | |]; try done. simpl.
  unfold submitHandler.
  by destruct (gatherUserInput ToNumber filled) as [[[[t d] [|n]]|] shown].
Qed.

(** Every state of a user session is a state of a session of page events. *)
Lemma user_session_as_session ToNumber rnd es :
  user_session ToNumber rnd es
  = session rnd (es ≫= as_page_events ToNumber).
Proof.
  unfold user_session, session. generalize page_loaded.
  induction es as [|e es IH]; intros m; [done |].
  simpl. rewrite foldl_app, <- react_as_page_events. apply IH.
Qed.

Lemma set_status_validated s prj : validated prj → validated (set_status s prj).
Proof. done. Qed.

Lemma moveProject_validated {W} i s (m : Machine W) :
  Forall validated (projects (projectState m)) →
  Forall validated (projects (projectState (moveProject i s m).2)).
Proof.
  intros Hall.
  destruct (list_find (λ prj, id prj = i) (projects (projectState m)))
    as [[slot prj]|] eqn:Hfind.
  - rewrite (moveProject_found _ s _ _ _ Hfind). simpl.
    apply Forall_alter; [done |]. intros x Hx Hprj.
    by apply (Forall_lookup_1 _ _ _ _ Hall Hx).
  - by rewrite (moveProject_not_found _ s _ Hfind).
Qed.

Lemma dropHandler_validated this event (m : Machine Page) :
  Forall validated (projects (projectState m)) →
  Forall validated (projects (projectState (dropHandler this event m).2)).
Proof.
  intros Hall. unfold dropHandler.
  destruct (dataTransfer event) as [dt|]; [| done].
  destruct (truthy _); [| done].
  unfold mbind, M_bind, bind, this_ProjectList.
  destruct (world m !! this) as [l|]; [| done].
  pose proof (moveProject_validated (DataTransfer.getData "text/plain" dt)
    (if decide (type l = Active) then Active else Finished) m Hall) as Hmoved.
  by destruct (moveProject _ _ m) as [[v|e] m'].
Qed.

Lemma react_validated ToNumber rnd e (m : Machine Page) :
  Forall validated (projects (projectState m)) →
  Forall validated (projects (projectState (react ToNumber rnd e m))).
Proof.
  intros Hall. destruct e as [filled|this event|this event|this event].
  - cbn [react].
    destruct (acceptable_or_not ToNumber filled) as [[z Hz]|Hno].
    + rewrite (submitHandler_accepted _ _ _ _ z Hz), addProject_eq. simpl.
      apply Forall_app. split; [done |]. apply Forall_singleton.
      destruct Hz as (? & ? & ? & _ & ? & ?). unfold validated. simpl.
      by split_and!.
    + by rewrite submitHandler_refused.
  - cbn [react]. unfold dragOverHandler.
    destruct (dataTransfer event) as [dt|]; [| done]. by destruct (decide _).
  - done.
  - by apply dropHandler_validated.
Qed.

(** X23.  Whatever the user submits and drags, every item of the registry
    has a non-blank title, a non-blank description of length 5 or more and
    a number of people from 1 to 5. *)
Theorem user_session_projects_are_validated ToNumber rnd es :
  Forall validated (projects (projectState (user_session ToNumber rnd es))).
Proof.
  unfold user_session.
  assert (Forall validated (projects (projectState page_loaded))) as Hinit
    by constructor.
  revert Hinit. generalize page_loaded.
  induction es as [|e es IH]; intros m Hm; simpl; [done |].
  by apply IH, react_validated.
Qed.
